(** * Sparkify data-lake ETL (Data Pipeline/etl.py)

    A shallow embedding of the Spark job in [etl.py]: the two transforms
    [process_song_data] and [process_log_data], the SQL text they submit,
    the Python UDF [get_timestamp], and the driver [main].

    Modelling conventions.
    - A DataFrame / temp view / parquet directory is a [list] of rows.  Spark
      gives no meaning to the order of the rows of a relation; the order a
      list happens to have is never used in a statement below except where
      the statement is about positions explicitly.
    - Every column is nullable, as in a schema inferred by [spark.read.json]:
      a column of type [T] is an [option T], [None] being SQL NULL.
    - SQL comparisons are three-valued ([option bool]); WHERE and JOIN ... ON
      keep a row only when the condition is [Some true].
    - The S3 bucket is an explicit state [S3.t] threaded through the
      transforms; [write.mode('overwrite')] replaces one of its fields. *)

From Stdlib Require Import ZArith QArith Qround Lia.
From stdpp Require Import base decidable option list strings.

(** ** SQL three-valued logic *)

Module sql.

(** [a = b] (also spelled [a == b]) in Spark SQL: NULL if either side is. *)
Definition eq {A} `{EqDecision A} (a b : option A) : option bool :=
  match a, b with
  | Some x, Some y => Some (bool_decide (x = y))
  | _, _ => None
  end.

(** [a IS NOT NULL]: never NULL itself. *)
Definition is_not_null {A} (a : option A) : option bool :=
  Some (bool_decide (is_Some a)).

(** A WHERE / ON condition keeps the row only when it evaluates to TRUE. *)
Definition holds (c : option bool) : bool :=
  match c with
  | Some true => true
  | _ => false
  end.

(** [SELECT ... FROM t WHERE c]. *)
Definition where_ {R} (c : R → option bool) (t : list R) : list R :=
  filter (λ r, holds (c r)) t.

(** [SELECT DISTINCT]. *)
Definition distinct {R} `{EqDecision R} (t : list R) : list R :=
  remove_dups t.

(** A string literal in a query. *)
Definition lit (s : string) : option string := Some s.

End sql.

(** A DOUBLE column.  The job only copies such values and compares them for
    DISTINCT, so a value is represented by its IEEE-754 binary64 bit pattern
    (after Spark's normalisation of NaN and -0.0 for grouping). *)
Definition double := Z.

(** ** Schemas *)

(** Rows of [song_data/*/*/*/*.json] (temp view [songs] of
    [process_song_data]); only the columns the job mentions. *)
Module SongData.
Record row := {
  song_id : option string;
  title : option string;
  artist_id : option string;
  year : option Z;
  duration : option double;
  artist_name : option string;
  artist_location : option string;
  artist_latitude : option double;
  artist_longitude : option double
}.
#[global] Instance row_eq_dec : EqDecision row.
Proof. solve_decision. Defined.
End SongData.

(** Rows of [songs_table]. *)
Module Songs.
Record row := {
  song_id : option string;
  title : option string;
  artist_id : option string;
  year : option Z;
  duration : option double
}.
#[global] Instance row_eq_dec : EqDecision row.
Proof. solve_decision. Defined.
End Songs.

(** Rows of [artists_table]. *)
Module Artists.
Record row := {
  artist_id : option string;
  name : option string;
  location : option string;
  latitude : option double;
  longitude : option double
}.
#[global] Instance row_eq_dec : EqDecision row.
Proof. solve_decision. Defined.
End Artists.

(** Rows of [log-data/*.json]; only the columns the job mentions. *)
Module Log.
Record row := {
  artist : option string;
  firstName : option string;
  gender : option string;
  lastName : option string;
  level : option string;
  location : option string;
  page : option string;
  sessionId : option Z;
  song : option string;
  ts : option Z;
  userAgent : option string;
  userId : option string
}.
#[global] Instance row_eq_dec : EqDecision row.
Proof. solve_decision. Defined.
End Log.

(** Rows of [users_table]. *)
Module Users.
Record row := {
  user_id : option string;
  first_name : option string;
  last_name : option string;
  gender : option string;
  level : option string
}.
#[global] Instance row_eq_dec : EqDecision row.
Proof. solve_decision. Defined.
End Users.

(** ** Calendar arithmetic

    The proleptic Gregorian calendar both Python's [datetime] and Spark's
    date functions use, counted in days since 1970-01-01. *)

Module calendar.
Local Open Scope Z_scope.

(** Day number to (year, month, day). *)
Definition civil_from_days (z : Z) : Z * Z * Z :=
  let z := z + 719468 in
  let era := z / 146097 in
  let doe := z mod 146097 in
  let yoe := (doe - doe / 1460 + doe / 36524 - doe / 146096) / 365 in
  let doy := doe - (365 * yoe + yoe / 4 - yoe / 100) in
  let mp := (5 * doy + 2) / 153 in
  let d := doy - (153 * mp + 2) / 5 + 1 in
  let m := if mp <? 10 then mp + 3 else mp - 9 in
  let y := yoe + era * 400 in
  (if m <=? 2 then y + 1 else y, m, d).

(** (year, month, day) to day number. *)
Definition days_from_civil (y m d : Z) : Z :=
  let y := if m <=? 2 then y - 1 else y in
  let era := y / 400 in
  let yoe := y mod 400 in
  let mp := if m <=? 2 then m + 9 else m - 3 in
  let doy := (153 * mp + 2) / 5 + d - 1 in
  let doe := yoe * 365 + yoe / 4 - yoe / 100 + doy in
  era * 146097 + doe - 719468.

(** Leap years, and the length of a month. *)
Definition is_leap (y : Z) : bool :=
  (y mod 4 =? 0) && (negb (y mod 100 =? 0) || (y mod 400 =? 0)).

Definition days_in_month (y m : Z) : Z :=
  if m =? 2 then (if is_leap y then 29 else 28)
  else if (m =? 4) || (m =? 6) || (m =? 9) || (m =? 11) then 30
  else 31.

(** ISO-8601 day of the week: Monday = 1 ... Sunday = 7. *)
Definition iso_weekday (days : Z) : Z := (days + 3) mod 7 + 1.

(** Number of ISO weeks (52 or 53) of a year. *)
Definition iso_weeks_in_year (y : Z) : Z :=
  let p y := (y + y / 4 - y / 100 + y / 400) mod 7 in
  if (p y =? 4) || (p (y - 1) =? 3) then 53 else 52.

(** ISO-8601 week number of a date. *)
Definition iso_week (y m d : Z) : Z :=
  let days := days_from_civil y m d in
  let doy := days - days_from_civil y 1 1 + 1 in
  let w := (doy - iso_weekday days + 10) / 7 in
  if w <? 1 then iso_weeks_in_year (y - 1)
  else if iso_weeks_in_year y <? w then 1
  else w.

End calendar.

(** ** The Python side: [datetime] and the UDF *)

(** A naive [datetime.datetime] value (no tzinfo): wall-clock fields. *)
Module datetime.
Record t := {
  year : Z;
  month : Z;
  day : Z;
  hour : Z;
  minute : Z;
  second : Z;
  microsecond : Z
}.
#[global] Instance t_eq_dec : EqDecision t.
Proof. solve_decision. Defined.

(** [d.replace(microsecond=us)]. *)
Definition replace_microsecond (d : t) (us : Z) : t :=
  {| year := year d; month := month d; day := day d; hour := hour d;
     minute := minute d; second := second d; microsecond := us |}.
End datetime.

(** Exceptions the UDF can raise; a raised exception fails the Spark job.
    [RangeError] stands for the ValueError / OverflowError / OSError family
    [fromtimestamp] raises on a timestamp outside years 1..9999. *)
Inductive exn := TypeError | RangeError.

Inductive result (A : Type) : Type :=
  | Ok (a : A)
  | Raise (e : exn).
Arguments Ok {A} a.
Arguments Raise {A} e.

#[global] Instance exn_eq_dec : EqDecision exn.
Proof. solve_decision. Defined.
#[global] Instance result_eq_dec {A} `{EqDecision A} : EqDecision (result A).
Proof. solve_decision. Defined.

#[global] Instance result_bind : MBind result := λ A B f r,
  match r with
  | Ok a => f a
  | Raise e => Raise e
  end.

(** Apply a fallible function to every element, left to right; the first
    exception aborts. *)
Fixpoint traverse {A B} (f : A → result B) (l : list A) : result (list B) :=
  match l with
  | [] => Ok []
  | x :: l => y ← f x; ys ← traverse f l; Ok (y :: ys)
  end.

(** The ambient time zone of the process: the UTC offset, in seconds, that
    is in force at a given instant (seconds since the epoch). *)
Definition tzinfo := Z → Z.

Module py.
Local Open Scope Z_scope.

(** [x / d] on a Python int (true division), [x] possibly [None].  The
    quotient is kept as an exact rational where Python has the nearest
    binary64; the two agree on every field [get_timestamp] keeps, since
    the microsecond field, the only one rounding can touch, is reset. *)
Definition truediv (x : option Z) (d : positive) : result Q :=
  match x with
  | None => Raise TypeError
  | Some x => Ok (x # d)
  end.

(** [math.modf]: fractional and integral part, both with the sign of the
    argument. *)
Definition modf (q : Q) : Q * Z :=
  let i := Z.quot (Qnum q) (Zpos (Qden q)) in
  ((q - inject_Z i)%Q, i).

(** [round(q)]: to the nearest integer, ties to even. *)
Definition round (q : Q) : Z :=
  let f := Qfloor q in
  match ((q - inject_Z f)%Q ?= (1 # 2)%Q)%Q with
  | Lt => f
  | Gt => f + 1
  | Eq => if Z.even f then f else f + 1
  end.

(** [time.localtime(t)] restricted to (y, m, d, hh, mm, ss). *)
Definition localtime (tz : tzinfo) (t : Z) : Z * Z * Z * Z * Z * Z :=
  let l := t + tz t in
  let sod := l mod 86400 in
  let '(y, m, d) := calendar.civil_from_days (l / 86400) in
  (y, m, d, sod / 3600, sod mod 3600 / 60, sod mod 60).

(** [datetime(y, m, d, hh, mm, ss, us)]: the constructor checks the year. *)
Definition mk_datetime (f : Z * Z * Z * Z * Z * Z) (us : Z)
  : result datetime.t :=
  let '(y, m, d, hh, mm, ss) := f in
  if (1 <=? y) && (y <=? 9999) then
    Ok {| datetime.year := y; datetime.month := m; datetime.day := d;
          datetime.hour := hh; datetime.minute := mm;
          datetime.second := Z.min ss 59; datetime.microsecond := us |}
  else Raise RangeError.

(** [ymd_to_ord]: the ordinal of a date, 0001-01-01 being day 1. *)
Definition ymd_to_ord (y m d : Z) : Z := calendar.days_from_civil y m d + 719163.

(** [utc_to_seconds]: seconds since ordinal 0 of a wall clock; refuses a
    year outside 1..9999. *)
Definition utc_to_seconds (f : Z * Z * Z * Z * Z * Z) : result Z :=
  let '(y, m, d, hh, mm, ss) := f in
  if (1 <=? y) && (y <=? 9999) then
    Ok (((ymd_to_ord y m d * 24 + hh) * 60 + mm) * 60 + ss)
  else Raise RangeError.

Definition epoch : Z := 719163 * 24 * 60 * 60.
Definition max_fold_seconds : Z := 24 * 60 * 60.

(** [local(u)]: the local wall clock, in seconds since ordinal 0, at the
    instant [u] (itself counted from ordinal 0). *)
Definition local (tz : tzinfo) (u : Z) : result Z :=
  utc_to_seconds (localtime tz (u - epoch)).

(** [datetime_from_timet_and_us] for naive local time.  Besides the wall
    clock at [timet] it probes the wall clock 24 hours earlier, and, when
    the offset dropped in between, the one a transition earlier, to set the
    [fold] attribute; each probe raises when it leaves the years 1..9999.
    [fold] itself is not represented: it does not take part in the
    comparison of naive datetimes nor in the fields Spark reads. *)
Definition datetime_from_timet_and_us (tz : tzinfo) (timet us : Z)
  : result datetime.t :=
  let '(y, m, d, hh, mm, ss) := localtime tz timet in
  result_seconds ← utc_to_seconds (y, m, d, hh, mm, Z.min ss 59);
  probe_seconds ← local tz (epoch + timet - max_fold_seconds);
  let transition := result_seconds - probe_seconds - max_fold_seconds in
  _ ← (if transition <? 0 then local tz (epoch + timet + transition)
       else Ok probe_seconds);
  mk_datetime (y, m, d, hh, mm, ss) us.

(** [datetime.fromtimestamp(t)] for a float [t], local time: the float is
    split into seconds and microseconds, rounding half to even. *)
Definition fromtimestamp (tz : tzinfo) (t : Q) : result datetime.t :=
  let '(frac, t) := modf t in
  let us := round (frac * inject_Z 1000000)%Q in
  let '(t, us) :=
    if 1000000 <=? us then (t + 1, us - 1000000)
    else if us <? 0 then (t - 1, us + 1000000)
    else (t, us) in
  datetime_from_timet_and_us tz t us.

End py.

(** [get_timestamp = udf(lambda x:
      datetime.fromtimestamp(x/1000).replace(microsecond=0), TimestampType())] *)
Definition get_timestamp (tz : tzinfo) (x : option Z) : result datetime.t :=
  t ← py.truediv x 1000;
  d ← py.fromtimestamp tz t;
  Ok (datetime.replace_microsecond d 0).

(** ** Spark SQL date functions

    A TIMESTAMP column value is represented by the wall-clock fields Spark
    shows for it in the session time zone, which is taken to be the time zone
    of the Python workers (both default to the host's), so that the fields of
    the [datetime] the UDF returned are the fields Spark extracts. *)

Module sqlfn.
Local Open Scope Z_scope.

Definition hour (t : option datetime.t) : option Z := datetime.hour <$> t.
Definition dayofmonth (t : option datetime.t) : option Z := datetime.day <$> t.
Definition month (t : option datetime.t) : option Z := datetime.month <$> t.
Definition year (t : option datetime.t) : option Z := datetime.year <$> t.

(** ISO-8601 week of the year. *)
Definition weekofyear (t : option datetime.t) : option Z :=
  (λ d, calendar.iso_week (datetime.year d) (datetime.month d) (datetime.day d))
    <$> t.

(** 1 = Sunday, 2 = Monday, ..., 7 = Saturday. *)
Definition dayofweek (t : option datetime.t) : option Z :=
  (λ d, calendar.iso_weekday
          (calendar.days_from_civil
             (datetime.year d) (datetime.month d) (datetime.day d)) mod 7 + 1)
    <$> t.

End sqlfn.

(** ** Schemas of the log transform *)

(** Rows of the temp view [time]: the play rows with the added column
    [start_time] ([df.withColumn('start_time', get_timestamp('ts'))]). *)
Module Time.
Record row := {
  log : Log.row;
  start_time : option datetime.t
}.
#[global] Instance row_eq_dec : EqDecision row.
Proof. solve_decision. Defined.
End Time.

(** Rows of [time_table]. *)
Module TimeTable.
Record row := {
  start_time : option datetime.t;
  hour : option Z;
  day : option Z;
  week : option Z;
  month : option Z;
  year : option Z;
  weekday : option Z
}.
#[global] Instance row_eq_dec : EqDecision row.
Proof. solve_decision. Defined.
End TimeTable.

(** Rows of [songplays_table]. *)
Module SongPlays.
Record row := {
  songplay_id : Z;
  start_time : option datetime.t;
  month : option Z;
  year : option Z;
  user_id : option string;
  level : option string;
  song_id : option string;
  artist_id : option string;
  session_id : option Z;
  location : option string;
  user_agent : option string
}.
#[global] Instance row_eq_dec : EqDecision row.
Proof. solve_decision. Defined.
End SongPlays.

(** ** The bucket

    [input_data = "s3a://udacity-deng-wande/"] holds the two raw inputs;
    [output_data = input_data + "outputs/"] holds the five relations the job
    writes.  A parquet directory is held as the relation it stores: the
    directory layout of [partitionBy] and the globs used to read it back are
    not represented. *)
Module S3.
Record t := {
  song_data : list SongData.row;     (* song_data/*/*/*/*.json *)
  log_data : list Log.row;           (* log-data/*.json *)
  songs : list Songs.row;            (* outputs/songs/ *)
  artists : list Artists.row;        (* outputs/artists/ *)
  users : list Users.row;            (* outputs/users/ *)
  timetable : list TimeTable.row;    (* outputs/timetable/ *)
  songsplay : list SongPlays.row     (* outputs/songsplay/ *)
}.

(** [.write.mode('overwrite').parquet(...)], one per destination. *)
Definition write_songs (v : list Songs.row) (s : t) : t :=
  {| song_data := song_data s; log_data := log_data s; songs := v;
     artists := artists s; users := users s; timetable := timetable s;
     songsplay := songsplay s |}.
Definition write_artists (v : list Artists.row) (s : t) : t :=
  {| song_data := song_data s; log_data := log_data s; songs := songs s;
     artists := v; users := users s; timetable := timetable s;
     songsplay := songsplay s |}.
Definition write_users (v : list Users.row) (s : t) : t :=
  {| song_data := song_data s; log_data := log_data s; songs := songs s;
     artists := artists s; users := v; timetable := timetable s;
     songsplay := songsplay s |}.
Definition write_timetable (v : list TimeTable.row) (s : t) : t :=
  {| song_data := song_data s; log_data := log_data s; songs := songs s;
     artists := artists s; users := users s; timetable := v;
     songsplay := songsplay s |}.
Definition write_songsplay (v : list SongPlays.row) (s : t) : t :=
  {| song_data := song_data s; log_data := log_data s; songs := songs s;
     artists := artists s; users := users s; timetable := timetable s;
     songsplay := v |}.

(** The bucket [s] with [v] as the content of [log-data/]; upstream of the
    job, used to state what the job does on a given event input. *)
Definition with_log_data (v : list Log.row) (s : t) : t :=
  {| song_data := song_data s; log_data := v; songs := songs s;
     artists := artists s; users := users s; timetable := timetable s;
     songsplay := songsplay s |}.
End S3.

(** ** Catalog transform: [process_song_data] *)

(** [SELECT DISTINCT song_id, title, artist_id, year, duration
     FROM songs WHERE song_id IS NOT NULL] *)
Definition songs_columns (r : SongData.row) : Songs.row :=
  {| Songs.song_id := SongData.song_id r;
     Songs.title := SongData.title r;
     Songs.artist_id := SongData.artist_id r;
     Songs.year := SongData.year r;
     Songs.duration := SongData.duration r |}.

Definition songs_table (songs : list SongData.row) : list Songs.row :=
  sql.distinct
    (songs_columns
       <$> sql.where_ (λ r, sql.is_not_null (SongData.song_id r)) songs).

(** [SELECT artist_id, artist_name as name, artist_location as location,
            artist_latitude as latitude, artist_longitude as longitude
     FROM songs WHERE artist_id IS NOT NULL] *)
Definition artists_columns (r : SongData.row) : Artists.row :=
  {| Artists.artist_id := SongData.artist_id r;
     Artists.name := SongData.artist_name r;
     Artists.location := SongData.artist_location r;
     Artists.latitude := SongData.artist_latitude r;
     Artists.longitude := SongData.artist_longitude r |}.

Definition artists_table (songs : list SongData.row) : list Artists.row :=
  artists_columns
    <$> sql.where_ (λ r, sql.is_not_null (SongData.artist_id r)) songs.

Definition process_song_data (s : S3.t) : S3.t :=
  let df := S3.song_data s in
  let s := S3.write_songs (songs_table df) s in
  S3.write_artists (artists_table df) s.

(** ** Event transform: [process_log_data] *)

(** [df.filter(df.page == 'NextSong')] *)
Definition filter_plays (df : list Log.row) : list Log.row :=
  sql.where_ (λ r, sql.eq (Log.page r) (sql.lit "NextSong")) df.

(** [SELECT userId as user_id, firstName as first_name,
            lastName as last_name, gender, level
     FROM log_data WHERE userId IS NOT NULL] *)
Definition users_columns (r : Log.row) : Users.row :=
  {| Users.user_id := Log.userId r;
     Users.first_name := Log.firstName r;
     Users.last_name := Log.lastName r;
     Users.gender := Log.gender r;
     Users.level := Log.level r |}.

Definition users_table (log_data : list Log.row) : list Users.row :=
  users_columns
    <$> sql.where_ (λ r, sql.is_not_null (Log.userId r)) log_data.

(** [df.withColumn('start_time', get_timestamp('ts'))]: the UDF runs on every
    row of [df]; an exception in any call fails the job that evaluates the
    column. *)
Definition with_start_time (tz : tzinfo) (df : list Log.row)
  : result (list Time.row) :=
  traverse
    (λ r, t ← get_timestamp tz (Log.ts r);
          Ok {| Time.log := r; Time.start_time := Some t |})
    df.

(** The SELECT list of the [time_table] query, for one row. *)
Definition time_columns (start_time : option datetime.t) : TimeTable.row :=
  {| TimeTable.start_time := start_time;
     TimeTable.hour := sqlfn.hour start_time;
     TimeTable.day := sqlfn.dayofmonth start_time;
     TimeTable.week := sqlfn.weekofyear start_time;
     TimeTable.month := sqlfn.month start_time;
     TimeTable.year := sqlfn.year start_time;
     TimeTable.weekday := sqlfn.dayofweek start_time |}.

(** [SELECT start_time, hour(start_time) as hour, dayofmonth(start_time) as day,
            weekofyear(start_time) as week, month(start_time) as month,
            year(start_time) as year, dayofweek(start_time) as weekday
     FROM time WHERE start_time IS NOT NULL] *)
Definition time_table (time : list Time.row) : list TimeTable.row :=
  (λ r, time_columns (Time.start_time r))
    <$> sql.where_ (λ r, sql.is_not_null (Time.start_time r)) time.

(** The rows the two joins pair with one row [se] of [time]: every [ss] with
    [ss.title = se.song], and with each every [at] with
    [se.artist == at.name]. *)
Definition join_row (se : Time.row) (songs_table : list Songs.row)
    (artists_table : list Artists.row)
  : list (Time.row * Songs.row * Artists.row) :=
  ss ← sql.where_ (λ ss, sql.eq (Songs.title ss) (Log.song (Time.log se)))
         songs_table;
  at_ ← sql.where_ (λ at_, sql.eq (Log.artist (Time.log se)) (Artists.name at_))
          artists_table;
  [(se, ss, at_)].

(** [FROM time se JOIN songs_table ss on (ss.title = se.song)
               JOIN artists_table as at on (se.artist == at.name)] *)
Definition songplays_join (time : list Time.row) (songs_table : list Songs.row)
    (artists_table : list Artists.row)
  : list (Time.row * Songs.row * Artists.row) :=
  se ← time; join_row se songs_table artists_table.

(** The SELECT list of the [songplays_table] query.  [id] is the value of
    [monotonically_increasing_id()] for the row. *)
Definition songplays_columns (id : Z)
    (j : Time.row * Songs.row * Artists.row) : SongPlays.row :=
  let '(se, ss, at_) := j in
  {| SongPlays.songplay_id := id;
     SongPlays.start_time := Time.start_time se;
     SongPlays.month := sqlfn.month (Time.start_time se);
     SongPlays.year := sqlfn.year (Time.start_time se);
     SongPlays.user_id := Log.userId (Time.log se);
     SongPlays.level := Log.level (Time.log se);
     SongPlays.song_id := Songs.song_id ss;
     SongPlays.artist_id := Artists.artist_id at_;
     SongPlays.session_id := Log.sessionId (Time.log se);
     SongPlays.location := Log.location (Time.log se);
     SongPlays.user_agent := Log.userAgent (Time.log se) |}.

(** The partition in which the engine computes each row of a query result:
    row number [i] of the result (in the order of the list that holds it)
    is computed in partition [layout i].  The engine decides it. *)
Definition partitioning := nat → nat.

Module spark.
Local Open Scope Z_scope.

(** A 64-bit signed integer (a JVM long), wrapped around. *)
Definition to_long (z : Z) : Z := (z + 2 ^ 63) mod 2 ^ 64 - 2 ^ 63.

(** The number of rows of its partition that come before row [i]. *)
Definition row_in_partition (layout : partitioning) (i : nat) : nat :=
  length (filter (λ j, layout j = layout i) (seq 0 i)).

(** [monotonically_increasing_id()]: the partition index shifted left by 33
    bits plus the record number within the partition, in long arithmetic. *)
Definition monotonically_increasing_id (layout : partitioning) (i : nat) : Z :=
  to_long (Z.shiftl (Z.of_nat (layout i)) 33
           + Z.of_nat (row_in_partition layout i)).

End spark.

(** The whole [songplays_table] query. *)
Definition songplays_table (layout : partitioning) (time : list Time.row)
    (songs_table : list Songs.row) (artists_table : list Artists.row)
  : list SongPlays.row :=
  imap (λ i, songplays_columns (spark.monotonically_increasing_id layout i))
       (songplays_join time songs_table artists_table).

(** [process_log_data].  Spark is lazy: [users_table] is written before the
    UDF ever runs; the UDF is first evaluated by the write of [time_table].
    When it raises, the run stops there: nothing later is written (what an
    interrupted overwrite leaves at its destination is not represented, the
    destination keeps its previous content here).  The outcome is [Raise e]
    when the UDF raised [e] and [Ok ()] when it raised nothing; failures of
    the engine or of the storage are outside the model. *)
Definition process_log_data (tz : tzinfo) (layout : partitioning) (s : S3.t)
  : S3.t * result () :=
  let df := filter_plays (S3.log_data s) in
  let s := S3.write_users (users_table df) s in
  match with_start_time tz df with
  | Raise e => (s, Raise e)
  | Ok time =>
      let s := S3.write_timetable (time_table time) s in
      let song_df := S3.songs s in
      let df_artists := S3.artists s in
      let s :=
        S3.write_songsplay (songplays_table layout time song_df df_artists) s in
      (s, Ok ())
  end.

(** [main]: the catalog transform, then the event transform. *)
Definition main (tz : tzinfo) (layout : partitioning) (s : S3.t)
  : S3.t * result () :=
  process_log_data tz layout (process_song_data s).

(** ** Sample data: the end-to-end scenario *)

Module sample.
Definition utc : tzinfo := λ _, 0%Z.
(** UTC-8 all year round. *)
Definition pst : tzinfo := λ _, (-28800)%Z.

(** Every row in partition 0; and every row in a partition of its own. *)
Definition one_partition : partitioning := λ _, 0.
Definition row_per_partition : partitioning := λ i, i.

Definition song (id title artist_id name : string) : SongData.row :=
  {| SongData.song_id := Some id; SongData.title := Some title;
     SongData.artist_id := Some artist_id; SongData.year := Some 2000%Z;
     SongData.duration := Some 4640537203540230144%Z;
     SongData.artist_name := Some name;
     SongData.artist_location := Some "NYC";
     SongData.artist_latitude := Some 4630924833085561242%Z;
     SongData.artist_longitude := Some (-4588673823281545216)%Z |}.

Definition event (page userId : option string) (ts : option Z)
    (song artist : string) : Log.row :=
  {| Log.artist := Some artist; Log.firstName := Some "Sam";
     Log.gender := Some "M"; Log.lastName := Some "Lee";
     Log.level := Some "free"; Log.location := Some "NYC";
     Log.page := page; Log.sessionId := Some 5%Z; Log.song := Some song;
     Log.ts := ts; Log.userAgent := Some "UA"; Log.userId := userId |}.

Definition play (userId : string) (song artist : string) : Log.row :=
  event (Some "NextSong") (Some userId) (Some 1541121934796%Z) song artist.

Definition bucket (songs : list SongData.row) (events : list Log.row) : S3.t :=
  {| S3.song_data := songs; S3.log_data := events; S3.songs := [];
     S3.artists := []; S3.users := []; S3.timetable := [];
     S3.songsplay := [] |}.
End sample.


(** ** Reference relations, in the words of the specification *)

(** "Project distinct (producer-id, name, location, latitude, longitude)
    tuples where producer-id is non-null". *)
Definition artists_distinct_projection (songs : list SongData.row)
  : list Artists.row :=
  sql.distinct
    (artists_columns
       <$> sql.where_ (λ r, sql.is_not_null (SongData.artist_id r)) songs).

(** "Project distinct (actor-id, first name, last name, gender, tier) where
    actor-id is non-null", over the play rows. *)
Definition users_distinct_projection (log_data : list Log.row)
  : list Users.row :=
  sql.distinct
    (users_columns
       <$> sql.where_ (λ r, sql.is_not_null (Log.userId r))
                      (filter_plays log_data)).

(** Seconds from 1970-01-01 00:00:00 to a wall clock, the wall clock read as
    UTC ([calendar.timegm]): the inverse of the conversion the UDF starts
    from. *)
Definition timegm (d : datetime.t) : Z :=
  (calendar.days_from_civil
     (datetime.year d) (datetime.month d) (datetime.day d) * 86400
   + datetime.hour d * 3600 + datetime.minute d * 60 + datetime.second d)%Z.

(** A date of the calendar in the years 1..9999 with a time of day. *)
Definition valid_datetime (d : datetime.t) : bool :=
  ((1 <=? datetime.year d) && (datetime.year d <=? 9999)
   && (1 <=? datetime.month d) && (datetime.month d <=? 12)
   && (1 <=? datetime.day d)
   && (datetime.day d
       <=? calendar.days_in_month (datetime.year d) (datetime.month d))
   && (0 <=? datetime.hour d) && (datetime.hour d <=? 23)
   && (0 <=? datetime.minute d) && (datetime.minute d <=? 59)
   && (0 <=? datetime.second d) && (datetime.second d <=? 59))%Z.

(** "Dividing [ts] by 1000, converting the quotient to a calendar timestamp,
    and truncating sub-second precision to zero": [dt] is a date and time of
    the calendar with microsecond 0, and [ts] milliseconds falls in the
    second that [dt] names in the zone (the wall clock [dt], taken back by
    the zone's offset, is at most [ts / 1000] and less than a second
    before it).  Stated through [timegm], not through the conversion the UDF
    uses. *)
Definition is_calendar_timestamp (tz : tzinfo) (ts : Z) (dt : datetime.t)
  : bool :=
  (valid_datetime dt && (datetime.microsecond dt =? 0)
   && (1000 * (timegm dt - tz (ts / 1000)) <=? ts)
   && (ts <? 1000 * (timegm dt - tz (ts / 1000)) + 1000))%Z.

(** The wall clock, in seconds since 1970-01-01 00:00:00, that the zone
    shows at instant [u]. *)
Definition local_seconds (tz : tzinfo) (u : Z) : Z := (u + tz u)%Z.

(** Wall clocks from 0001-01-01 00:00:00 to 9999-12-31 23:59:59. *)
Definition in_years_1_9999 (l : Z) : bool :=
  ((-62135596800 <=? l) && (l <? 253402300800))%Z.

(** The instants [fromtimestamp] can convert: the wall clock at the
    instant, the one 24 hours earlier and, when the offset dropped in
    between, the one a transition earlier all lie in the years 1..9999. *)
Definition convertible (tz : tzinfo) (t : Z) : bool :=
  (in_years_1_9999 (local_seconds tz t)
   && in_years_1_9999 (local_seconds tz (t - 86400))
   && (if tz t - tz (t - 86400) <? 0
       then in_years_1_9999 (local_seconds tz (t + (tz t - tz (t - 86400))))
       else true))%Z.

(** Number of rows of a relation whose column [col] holds [v]. *)
Definition count_where {R A} `{EqDecision A} (col : R → option A)
    (v : option A) (t : list R) : nat :=
  length (sql.where_ (λ r, sql.eq (col r) v) t).

(** A fact row without the generated songplay_id: the columns the query
    selects from the joined rows. *)
Definition songplays_data_columns (r : SongPlays.row)
  : option datetime.t * option Z * option Z * option string * option string
    * option string * option string * option Z * option string
    * option string :=
  (SongPlays.start_time r, SongPlays.month r, SongPlays.year r,
   SongPlays.user_id r, SongPlays.level r, SongPlays.song_id r,
   SongPlays.artist_id r, SongPlays.session_id r, SongPlays.location r,
   SongPlays.user_agent r).

(** The columns of a fact row that come from the event and the catalog:
    all but the generated songplay_id and the three derived from
    [start_time]. *)
Definition songplays_event_columns (r : SongPlays.row)
  : option string * option string * option string * option string
    * option Z * option string * option string :=
  (SongPlays.user_id r, SongPlays.level r,
   SongPlays.song_id r, SongPlays.artist_id r, SongPlays.session_id r,
   SongPlays.location r, SongPlays.user_agent r).

(** A joined row without the timestamp the UDF added. *)
Definition strip_start_time (j : Time.row * Songs.row * Artists.row)
  : Log.row * Songs.row * Artists.row :=
  (Time.log j.1.1, j.1.2, j.2).

(** * Properties *)

(** ** SQL operators *)

Section sql_facts.
Context {R : Type}.
Implicit Types (t : list R) (c : R → option bool).

Lemma elem_of_where c t r : r ∈ sql.where_ c t ↔ sql.holds (c r) ∧ r ∈ t.
Proof. unfold sql.where_. by rewrite list_elem_of_filter. Qed.

Lemma where_app c t1 t2 :
  sql.where_ c (t1 ++ t2) = sql.where_ c t1 ++ sql.where_ c t2.
Proof. unfold sql.where_. apply filter_app. Qed.

Lemma where_cons_drop c r t :
  sql.holds (c r) = false → sql.where_ c (r :: t) = sql.where_ c t.
Proof.
  intros H. unfold sql.where_. apply filter_cons_False.
  rewrite H. auto.
Qed.

Lemma where_cons_keep c r t :
  sql.holds (c r) = true → sql.where_ c (r :: t) = r :: sql.where_ c t.
Proof.
  intros H. unfold sql.where_. apply filter_cons_True. by rewrite H.
Qed.

Lemma length_where c t : length (sql.where_ c t) ≤ length t.
Proof. unfold sql.where_. apply length_filter. Qed.

Lemma where_none c t :
  (∀ r, r ∈ t → sql.holds (c r) = false) → sql.where_ c t = [].
Proof.
  induction t as [|r t IH]; intros H; [done|].
  rewrite where_cons_drop by (apply H; left).
  apply IH. intros r' Hr'. apply H. by right.
Qed.

Lemma elem_of_distinct `{EqDecision R} t r : r ∈ sql.distinct t ↔ r ∈ t.
Proof. apply elem_of_remove_dups. Qed.

Lemma NoDup_distinct `{EqDecision R} t : NoDup (sql.distinct t).
Proof. apply NoDup_remove_dups. Qed.
End sql_facts.

Lemma holds_is_not_null {A} (a : option A) :
  sql.holds (sql.is_not_null a) ↔ is_Some a.
Proof.
  unfold sql.is_not_null, sql.holds.
  case_bool_decide; naive_solver.
Qed.

Lemma holds_eq {A} `{EqDecision A} (a b : option A) :
  sql.holds (sql.eq a b) = true ↔ ∃ x, a = Some x ∧ b = Some x.
Proof.
  destruct a as [x|], b as [y|]; simpl;
    try (split; [done | intros (z & ? & ?); done]).
  case_bool_decide as E; split; try done.
  - intros _. subst. eauto.
  - intros (z & [= ->] & [= ->]). done.
Qed.

Lemma holds_eq_lit_false (a : option string) (s : string) :
  a ≠ Some s → sql.holds (sql.eq a (sql.lit s)) = false.
Proof.
  intros H. destruct (sql.holds _) eqn:E; [|done].
  apply holds_eq in E as (x & -> & [= ->]). done.
Qed.

(** ** The error monad *)

Section traverse_facts.
Context {A B : Type} (f : A → result B).

Lemma traverse_app l1 l2 :
  traverse f (l1 ++ l2)
  = (ys1 ← traverse f l1; ys2 ← traverse f l2; Ok (ys1 ++ ys2)).
Proof.
  induction l1 as [|x l1 IH]; simpl.
  - by destruct (traverse f l2).
  - destruct (f x) as [y|e]; simpl; [|done].
    rewrite IH. destruct (traverse f l1); simpl; [|done].
    by destruct (traverse f l2).
Qed.

Lemma traverse_Ok_length l ys : traverse f l = Ok ys → length ys = length l.
Proof.
  revert ys. induction l as [|x l IH]; intros ys; simpl.
  - by intros [= <-].
  - destruct (f x) as [y|e]; simpl; [|done].
    destruct (traverse f l) as [ys'|e]; simpl; [|done].
    intros [= <-]. simpl. f_equal. by apply IH.
Qed.

Lemma traverse_Ok_Forall2 l ys :
  traverse f l = Ok ys → Forall2 (λ x y, f x = Ok y) l ys.
Proof.
  revert ys. induction l as [|x l IH]; intros ys; simpl.
  - intros [= <-]. constructor.
  - destruct (f x) as [y|e] eqn:E; simpl; [|done].
    destruct (traverse f l) as [ys'|e]; simpl; [|done].
    intros [= <-]. constructor; [done|]. by apply IH.
Qed.

Lemma traverse_Ok_iff l :
  (∃ ys, traverse f l = Ok ys) ↔ Forall (λ x, ∃ y, f x = Ok y) l.
Proof.
  induction l as [|x l IH]; simpl.
  - split; [constructor | by eexists].
  - rewrite Forall_cons, <- IH. split.
    + intros [ys H]. destruct (f x) as [y|e]; simpl in H; [|done].
      destruct (traverse f l) as [ys'|e]; simpl in H; [|done]. eauto.
    + intros [[y Hy] [ys Hys]]. rewrite Hy, Hys. simpl. eauto.
Qed.
End traverse_facts.

(** ** Catalog transform *)

Lemma process_song_data_songs s :
  S3.songs (process_song_data s) = songs_table (S3.song_data s).
Proof. reflexivity. Qed.

Lemma process_song_data_artists s :
  S3.artists (process_song_data s) = artists_table (S3.song_data s).
Proof. reflexivity. Qed.

Lemma elem_of_songs_table songs r :
  r ∈ songs_table songs
  ↔ ∃ x, x ∈ songs ∧ is_Some (SongData.song_id x) ∧ r = songs_columns x.
Proof.
  unfold songs_table. rewrite elem_of_distinct, list_elem_of_fmap.
  split.
  - intros (x & -> & Hx). apply elem_of_where in Hx as [Hc Hx].
    apply holds_is_not_null in Hc. eauto.
  - intros (x & Hx & Hid & ->). exists x. split; [done|].
    apply elem_of_where. split; [|done]. by apply holds_is_not_null.
Qed.

Lemma elem_of_artists_table songs r :
  r ∈ artists_table songs
  ↔ ∃ x, x ∈ songs ∧ is_Some (SongData.artist_id x) ∧ r = artists_columns x.
Proof.
  unfold artists_table. rewrite list_elem_of_fmap.
  split.
  - intros (x & -> & Hx). apply elem_of_where in Hx as [Hc Hx].
    apply holds_is_not_null in Hc. eauto.
  - intros (x & Hx & Hid & ->). exists x. split; [done|].
    apply elem_of_where. split; [|done]. by apply holds_is_not_null.
Qed.

(** C2: the code at the failing input.  Two catalog records of one artist:
    [artists] holds the artist's row twice, the distinct projection once; the
    query of [songs_table] beside it is SELECT DISTINCT, that of
    [artists_table] is not. *)
Theorem artists_not_distinct :
  let s := sample.bucket [sample.song "S1" "Song A" "P1" "Band X";
                          sample.song "S2" "Song B" "P1" "Band X"] [] in
  let a := {| Artists.artist_id := Some "P1"; Artists.name := Some "Band X";
              Artists.location := Some "NYC";
              Artists.latitude := Some 4630924833085561242%Z;
              Artists.longitude := Some (-4588673823281545216)%Z |} in
  S3.artists (process_song_data s) = [a; a]
  ∧ artists_distinct_projection (S3.song_data s) = [a]
  ∧ length (S3.songs (process_song_data s)) = 2.
Proof. repeat split; vm_compute; reflexivity. Qed.

(** The identifiers occurring in [artists] are exactly the non-null artist
    identifiers of the input. *)
Lemma artists_identifiers (s : S3.t) (id : string) :
  (∃ x, x ∈ S3.song_data s ∧ SongData.artist_id x = Some id)
  ↔ (∃ a, a ∈ S3.artists (process_song_data s) ∧ Artists.artist_id a = Some id).
Proof.
  rewrite process_song_data_artists. split.
  - intros (x & Hx & Hid). exists (artists_columns x). split; [|done].
    apply elem_of_artists_table. exists x. by rewrite Hid.
  - intros (a & Ha & Hid).
    apply elem_of_artists_table in Ha as (x & Hx & _ & ->). eauto.
Qed.

(** C4, as stated, fails: DISTINCT is over the whole select list, so two
    catalog records with one song_id and different titles both stay. *)
Lemma songs_duplicate_identifier :
  let s := sample.bucket [sample.song "S1" "Song A" "P1" "Band X";
                          sample.song "S1" "Song B" "P1" "Band X"] [] in
  ¬ NoDup (Songs.song_id <$> S3.songs (process_song_data s)).
Proof.
  intros s H.
  assert (E : Songs.song_id <$> S3.songs (process_song_data s)
              = [Some "S1"; Some "S1"]) by (vm_compute; reflexivity).
  rewrite E in H. apply NoDup_cons in H as [H _]. apply H. left.
Qed.

(** C4 (amended): [songs] contains no two equal rows (two rows with the same
    identifier differ in another column) and no row with a null identifier;
    [artists] contains no row with a null identifier. *)
Theorem songs_artists_identifiers (s : S3.t) :
  let s' := process_song_data s in
  NoDup (S3.songs s')
  ∧ (∀ r, r ∈ S3.songs s' → is_Some (Songs.song_id r))
  ∧ (∀ r, r ∈ S3.artists s' → is_Some (Artists.artist_id r)).
Proof.
  simpl. split; [|split].
  - apply NoDup_distinct.
  - intros r Hr. apply elem_of_songs_table in Hr as (x & _ & Hid & ->). done.
  - intros r Hr. apply elem_of_artists_table in Hr as (x & _ & Hid & ->). done.
Qed.

(** ** Event transform: what a run writes *)

Lemma process_log_data_users tz layout s :
  S3.users (process_log_data tz layout s).1
  = users_table (filter_plays (S3.log_data s)).
Proof.
  unfold process_log_data.
  by destruct (with_start_time tz (filter_plays (S3.log_data s))).
Qed.

Lemma process_log_data_status tz layout s :
  (process_log_data tz layout s).2
  = (_ ← with_start_time tz (filter_plays (S3.log_data s)); Ok ()).
Proof.
  unfold process_log_data.
  by destruct (with_start_time tz (filter_plays (S3.log_data s))).
Qed.

Lemma process_log_data_catalog tz layout s :
  S3.songs (process_log_data tz layout s).1 = S3.songs s
  ∧ S3.artists (process_log_data tz layout s).1 = S3.artists s.
Proof.
  unfold process_log_data.
  by destruct (with_start_time tz (filter_plays (S3.log_data s))).
Qed.

Lemma process_log_data_Ok tz layout s s' :
  process_log_data tz layout s = (s', Ok ()) →
  ∃ time, with_start_time tz (filter_plays (S3.log_data s)) = Ok time
    ∧ S3.timetable s' = time_table time
    ∧ S3.songsplay s' = songplays_table layout time (S3.songs s) (S3.artists s).
Proof.
  unfold process_log_data.
  destruct (with_start_time tz (filter_plays (S3.log_data s))) as [time|e];
    [|done].
  intros [= <-]. by exists time.
Qed.

Lemma filter_plays_drop l1 e l2 :
  Log.page e ≠ Some "NextSong" →
  filter_plays (l1 ++ e :: l2) = filter_plays (l1 ++ l2).
Proof.
  intros H. unfold filter_plays.
  rewrite !where_app. f_equal.
  apply where_cons_drop. by apply holds_eq_lit_false.
Qed.

Lemma elem_of_filter_plays l e :
  e ∈ filter_plays l ↔ e ∈ l ∧ Log.page e = Some "NextSong".
Proof.
  unfold filter_plays. rewrite elem_of_where.
  split.
  - intros [H He]. split; [done|].
    apply Is_true_true, holds_eq in H as (x & -> & [= ->]). done.
  - intros [He H]. split; [|done].
    apply Is_true_true, holds_eq. eauto.
Qed.

Lemma elem_of_users_table l r :
  r ∈ users_table l
  ↔ ∃ e, e ∈ l ∧ is_Some (Log.userId e) ∧ r = users_columns e.
Proof.
  unfold users_table. rewrite list_elem_of_fmap.
  split.
  - intros (x & -> & Hx). apply elem_of_where in Hx as [Hc Hx].
    apply holds_is_not_null in Hc. eauto.
  - intros (x & Hx & Hid & ->). exists x. split; [done|].
    apply elem_of_where. split; [|done]. by apply holds_is_not_null.
Qed.

(** [users] never holds a null identifier. *)
Lemma users_no_null tz layout s r :
  r ∈ S3.users (process_log_data tz layout s).1 → is_Some (Users.user_id r).
Proof.
  rewrite process_log_data_users.
  intros (e & _ & Hid & ->)%elem_of_users_table. done.
Qed.

(** C3: the code at the failing input.  Two plays of one user: [users] holds
    the user's row twice, the distinct projection once. *)
Theorem users_not_distinct :
  let s := sample.bucket [] [sample.play "10" "Song A" "Band X";
                             sample.play "10" "Song B" "Band X"] in
  let u := {| Users.user_id := Some "10"; Users.first_name := Some "Sam";
              Users.last_name := Some "Lee"; Users.gender := Some "M";
              Users.level := Some "free" |} in
  S3.users (process_log_data sample.utc sample.one_partition s).1 = [u; u]
  ∧ users_distinct_projection (S3.log_data s) = [u].
Proof. split; vm_compute; reflexivity. Qed.

(** The layout of the rows in partitions decides the songplay_id only. *)
Lemma data_columns_songplays_table layout time songs artists :
  songplays_data_columns <$> songplays_table layout time songs artists
  = (λ j, songplays_data_columns (songplays_columns 0 j))
      <$> songplays_join time songs artists.
Proof.
  unfold songplays_table. rewrite fmap_imap, <- imap_const.
  apply imap_ext. by intros i [[se ss] at_] _.
Qed.

Lemma monotonically_increasing_id_ext layout layout' i :
  (∀ j, layout j = layout' j) →
  spark.monotonically_increasing_id layout i
  = spark.monotonically_increasing_id layout' i.
Proof.
  intros H. unfold spark.monotonically_increasing_id, spark.row_in_partition.
  rewrite (list_filter_iff (λ j, layout j = layout i)
                           (λ j, layout' j = layout' i)).
  - by rewrite H.
  - intros j. by rewrite !H.
Qed.

Lemma songplays_table_layout_ext layout layout' time songs artists :
  (∀ i, layout i = layout' i) →
  songplays_table layout time songs artists
  = songplays_table layout' time songs artists.
Proof.
  intros H. unfold songplays_table. apply imap_ext. intros i j _.
  by rewrite (monotonically_increasing_id_ext layout layout').
Qed.

(** C5: an event row whose [page] is not 'NextSong' leaves no trace: the
    three relations the event transform writes, and whether the run
    completes or raises, are those of the input without that row.  Of
    [songsplay] the generated songplay_id alone depends on how the engine
    lays the rows out in partitions; it is the same too when the two runs
    lay them out alike. *)
Theorem non_play_rows_dropped (tz : tzinfo) (layout layout' : partitioning)
    (s : S3.t) (l1 l2 : list Log.row) (e : Log.row) :
  Log.page e ≠ Some "NextSong" →
  let r := process_log_data tz layout (S3.with_log_data (l1 ++ e :: l2) s) in
  let r' := process_log_data tz layout' (S3.with_log_data (l1 ++ l2) s) in
  S3.users r.1 = S3.users r'.1
  ∧ S3.timetable r.1 = S3.timetable r'.1
  ∧ songplays_data_columns <$> S3.songsplay r.1
    = songplays_data_columns <$> S3.songsplay r'.1
  ∧ ((∀ i, layout i = layout' i) → S3.songsplay r.1 = S3.songsplay r'.1)
  ∧ r.2 = r'.2.
Proof.
  intros H. simpl. unfold process_log_data. simpl.
  rewrite (filter_plays_drop l1 e l2 H).
  destruct (with_start_time tz (filter_plays (l1 ++ l2))) as [time|err];
    [|done].
  cbn. split; [done|]. split; [done|]. split; [|split; [|done]].
  - by rewrite !data_columns_songplays_table.
  - apply songplays_table_layout_ext.
Qed.

Lemma non_play_rows_dropped_witness :
  let e := sample.event (Some "Home") (Some "10") None "Song A" "Band X" in
  let s := sample.bucket [sample.song "S1" "Song A" "P1" "Band X"] [] in
  let r := process_log_data sample.utc sample.one_partition
             (S3.with_log_data ([sample.play "10" "Song A" "Band X"] ++ e :: []) s) in
  let r' := process_log_data sample.utc sample.row_per_partition
              (S3.with_log_data ([sample.play "10" "Song A" "Band X"] ++ []) s) in
  Log.page e ≠ Some "NextSong"
  ∧ S3.users r.1 = S3.users r'.1
  ∧ S3.timetable r.1 = S3.timetable r'.1
  ∧ songplays_data_columns <$> S3.songsplay r.1
    = songplays_data_columns <$> S3.songsplay r'.1
  ∧ ((∀ i, sample.one_partition i = sample.row_per_partition i) →
     S3.songsplay r.1 = S3.songsplay r'.1)
  ∧ r.2 = r'.2.
Proof.
  split; [discriminate|].
  apply (non_play_rows_dropped sample.utc sample.one_partition
           sample.row_per_partition).
  discriminate.
Defined.

(** C10: IS NOT NULL lets the empty string through.  [users] holds exactly
    the projections of the play rows with a non-null [userId]; a play row
    whose [userId] is the empty string is among them, and some input has
    one. *)
Theorem empty_user_id_kept :
  (∀ tz layout s r,
     r ∈ S3.users (process_log_data tz layout s).1
     ↔ ∃ e, e ∈ S3.log_data s ∧ Log.page e = Some "NextSong"
            ∧ is_Some (Log.userId e) ∧ r = users_columns e)
  ∧ (∃ tz layout s e,
       e ∈ S3.log_data s ∧ Log.page e = Some "NextSong"
       ∧ Log.userId e = Some ""
       ∧ users_columns e ∈ S3.users (process_log_data tz layout s).1
       ∧ Users.user_id (users_columns e) = Some "").
Proof.
  assert (H : ∀ tz layout s r,
     r ∈ S3.users (process_log_data tz layout s).1
     ↔ ∃ e, e ∈ S3.log_data s ∧ Log.page e = Some "NextSong"
            ∧ is_Some (Log.userId e) ∧ r = users_columns e).
  { intros tz layout s r. rewrite process_log_data_users, elem_of_users_table.
    split.
    - intros (e & He & Hid & ->). apply elem_of_filter_plays in He as [He Hp].
      eauto 6.
    - intros (e & He & Hp & Hid & ->). exists e.
      split; [by apply elem_of_filter_plays|done]. }
  split; [exact H|].
  exists sample.utc, sample.one_partition,
    (sample.bucket [] [sample.play "" "Song A" "Band X"]),
    (sample.play "" "Song A" "Band X").
  split; [by left|]. split; [done|]. split; [done|]. split; [|done].
  apply H. eexists. split; [by left|]. split; [done|]. split; [|done].
  by eexists.
Qed.

(** ** The calendar *)

Section calendar_facts.
Local Open Scope Z_scope.

Ltac split_ifs :=
  repeat match goal with
  | |- context [if ?b then _ else _] =>
      match b with
      | (?a <? ?c) => destruct (Z.ltb_spec a c); try lia
      | (?a <=? ?c) => destruct (Z.leb_spec a c); try lia
      end
  end.

Lemma civil_from_days_fields z y m d :
  calendar.civil_from_days z = (y, m, d) → 1 ≤ m ≤ 12 ∧ 1 ≤ d ≤ 31.
Proof.
  unfold calendar.civil_from_days. cbv zeta. intros [= <- <- <-].
  split_ifs; Z.to_euclidean_division_equations; lia.
Qed.

(** Day number to date and back. *)
Lemma days_from_civil_from_days z y m d :
  calendar.civil_from_days z = (y, m, d) → calendar.days_from_civil y m d = z.
Proof.
  unfold calendar.civil_from_days, calendar.days_from_civil. cbv zeta.
  intros [= <- <- <-].
  split_ifs; Z.to_euclidean_division_equations; lia.
Qed.

(** Years 1..9999 are the days from 0001-01-01 to 9999-12-31. *)
Lemma days_year_range y m d :
  1 ≤ m ≤ 12 → 1 ≤ d ≤ 31 →
  (1 ≤ y ≤ 9999 ↔ -719162 ≤ calendar.days_from_civil y m d ≤ 2932896).
Proof.
  intros Hm Hd. unfold calendar.days_from_civil. cbv zeta.
  split_ifs; Z.to_euclidean_division_equations; lia.
Qed.

Lemma civil_year_range z y m d :
  calendar.civil_from_days z = (y, m, d) →
  (1 ≤ y ≤ 9999 ↔ -719162 ≤ z ≤ 2932896).
Proof.
  intros H. destruct (civil_from_days_fields _ _ _ _ H) as [Hm Hd].
  rewrite <- (days_from_civil_from_days _ _ _ _ H).
  by apply days_year_range.
Qed.

Lemma iso_weeks_in_year_range y : 52 ≤ calendar.iso_weeks_in_year y ≤ 53.
Proof.
  unfold calendar.iso_weeks_in_year. cbv zeta.
  match goal with |- context [if ?b then _ else _] => destruct b end; lia.
Qed.

Lemma iso_week_range y m d : 1 ≤ calendar.iso_week y m d ≤ 53.
Proof.
  unfold calendar.iso_week. cbv zeta.
  pose proof (iso_weeks_in_year_range y).
  pose proof (iso_weeks_in_year_range (y - 1)).
  split_ifs; lia.
Qed.

(** What [mk_datetime (localtime tz t)] returns, field by field. *)
Lemma mk_datetime_localtime tz t us dt :
  py.mk_datetime (py.localtime tz t) us = Ok dt →
  let l := t + tz t in
  calendar.civil_from_days (l / 86400)
  = (datetime.year dt, datetime.month dt, datetime.day dt)
  ∧ datetime.hour dt = l mod 86400 / 3600
  ∧ datetime.minute dt = l mod 86400 mod 3600 / 60
  ∧ datetime.second dt = l mod 86400 mod 60
  ∧ datetime.microsecond dt = us
  ∧ 1 ≤ datetime.year dt ≤ 9999.
Proof.
  unfold py.localtime, py.mk_datetime. cbv zeta.
  destruct (calendar.civil_from_days ((t + tz t) / 86400)) as [[y m] d].
  destruct (Z.leb_spec 1 y), (Z.leb_spec y 9999); simpl; try done.
  intros [= <-]. simpl. repeat split; try done.
  apply Z.min_l. pose proof (Z.mod_pos_bound ((t + tz t) mod 86400) 60). lia.
Qed.

Lemma mk_datetime_localtime_Ok tz t us :
  (∃ dt, py.mk_datetime (py.localtime tz t) us = Ok dt)
  ↔ -62135596800 ≤ t + tz t < 253402300800.
Proof.
  unfold py.localtime, py.mk_datetime. cbv zeta.
  destruct (calendar.civil_from_days ((t + tz t) / 86400)) as [[y m] d] eqn:E.
  pose proof (civil_year_range _ _ _ _ E) as Hy.
  assert (Hd : -719162 ≤ (t + tz t) / 86400 ≤ 2932896
               ↔ -62135596800 ≤ t + tz t < 253402300800)
    by (Z.to_euclidean_division_equations; lia).
  rewrite <- Hd, <- Hy.
  destruct (Z.leb_spec 1 y), (Z.leb_spec y 9999); simpl;
    (split; [intros [dt ?]; try done; lia | intros ?; try lia; eauto]).
Qed.
(** Evaluate the month arithmetic once the month is a numeral. *)
Ltac eval_closed t := let v := eval vm_compute in t in change t with v.

Ltac eval_consts :=
  repeat match goal with
  | |- context [if ?a <? 10 then ?b else ?c] =>
      progress eval_closed (if a <? 10 then b else c)
  | |- context [if ?a <=? 2 then ?b else ?c] =>
      progress eval_closed (if a <=? 2 then b else c)
  | |- context [(153 * ?a + 2) / 5] => progress eval_closed ((153 * a + 2) / 5)
  | |- context [(5 * ?a + 2) / 153] => fail
  end;
  unfold calendar.days_in_month;
  repeat match goal with
  | |- context [?a =? ?b] => progress eval_closed (a =? b)
  end;
  cbn [orb].

Lemma is_leap_spec a :
  calendar.is_leap a = true
  ↔ a mod 4 = 0 ∧ (a mod 100 ≠ 0 ∨ a mod 400 = 0).
Proof.
  unfold calendar.is_leap.
  destruct (Z.eqb_spec (a mod 4) 0), (Z.eqb_spec (a mod 100) 0),
           (Z.eqb_spec (a mod 400) 0); cbn; intuition congruence.
Qed.

Lemma is_leap_shift a k : calendar.is_leap (a + k * 400) = calendar.is_leap a.
Proof.
  unfold calendar.is_leap.
  replace ((a + k * 400) mod 4) with (a mod 4)
    by (Z.to_euclidean_division_equations; lia).
  replace ((a + k * 400) mod 100) with (a mod 100)
    by (Z.to_euclidean_division_equations; lia).
  replace ((a + k * 400) mod 400) with (a mod 400)
    by (Z.to_euclidean_division_equations; lia).
  reflexivity.
Qed.

(** A day of a 400-year era: its year, its day of the (March-based) year
    and its month. *)
Lemma era_day doe yoe doy mp :
  0 ≤ doe < 146097 →
  yoe = (doe - doe / 1460 + doe / 36524 - doe / 146096) / 365 →
  doy = doe - (365 * yoe + yoe / 4 - yoe / 100) →
  mp = (5 * doy + 2) / 153 →
  0 ≤ yoe ≤ 399 ∧ 0 ≤ doy ≤ 365 ∧ 0 ≤ mp ≤ 11
  ∧ 153 * mp ≤ 5 * doy + 2 < 153 * mp + 153
  ∧ (doy = 365 → calendar.is_leap (yoe + 1) = true).
Proof.
  intros H Eyoe Edoy Emp.
  assert (Hy : 0 ≤ yoe ≤ 399 ∧ 0 ≤ doy ≤ 365)
    by (subst doy yoe; Z.to_euclidean_division_equations; lia).
  assert (Hl : doy = 365 →
               (yoe + 1) mod 4 = 0
               ∧ ((yoe + 1) mod 100 ≠ 0 ∨ (yoe + 1) mod 400 = 0))
    by (subst doy yoe; Z.to_euclidean_division_equations; lia).
  clear Eyoe Edoy.
  split; [lia|]. split; [lia|].
  split; [subst mp; Z.to_euclidean_division_equations; lia|].
  split; [subst mp; Z.to_euclidean_division_equations; lia|].
  intros E. apply is_leap_spec. auto.
Qed.

Lemma month_day_valid yl doy mp m d :
  0 ≤ doy ≤ 365 → 0 ≤ mp ≤ 11 →
  153 * mp ≤ 5 * doy + 2 < 153 * mp + 153 →
  m = (if mp <? 10 then mp + 3 else mp - 9) →
  d = doy - (153 * mp + 2) / 5 + 1 →
  (doy = 365 → calendar.is_leap yl = true) →
  1 ≤ m ≤ 12 ∧ 1 ≤ d ≤ calendar.days_in_month yl m.
Proof.
  intros Hdoy Hmp Hd -> -> Hl.
  assert (Hc : mp = 0 ∨ mp = 1 ∨ mp = 2 ∨ mp = 3 ∨ mp = 4 ∨ mp = 5 ∨ mp = 6
               ∨ mp = 7 ∨ mp = 8 ∨ mp = 9 ∨ mp = 10 ∨ mp = 11) by lia.
  destruct Hc as [->|[->|[->|[->|[->|[->|[->|[->|[->|[->|[->| ->]]]]]]]]]]];
    eval_consts; try lia.
  destruct (calendar.is_leap yl); [lia|].
  assert (doy ≠ 365) by (intros E; specialize (Hl E); discriminate).
  lia.
Qed.

(** The date of a day number is a date of the calendar. *)
Lemma civil_from_days_valid z y m d :
  calendar.civil_from_days z = (y, m, d) →
  1 ≤ m ≤ 12 ∧ 1 ≤ d ≤ calendar.days_in_month y m.
Proof.
  unfold calendar.civil_from_days. cbv zeta.
  remember ((z + 719468) mod 146097) as doe eqn:Edoe.
  remember ((z + 719468) / 146097) as era eqn:Eera.
  remember ((doe - doe / 1460 + doe / 36524 - doe / 146096) / 365)
    as yoe eqn:Eyoe.
  remember (doe - (365 * yoe + yoe / 4 - yoe / 100)) as doy eqn:Edoy.
  remember ((5 * doy + 2) / 153) as mp eqn:Emp.
  intros H. injection H as Hy Hm Hd.
  assert (Hdoe : 0 ≤ doe < 146097)
    by (subst doe; apply Z.mod_pos_bound; lia).
  destruct (era_day doe yoe doy mp Hdoe Eyoe Edoy Emp)
    as (Hyoe & Hdoy & Hmp & Hmpd & Hl).
  apply (month_day_valid y doy mp); auto.
  intros E. specialize (Hl E).
  assert (mp = 11) as -> by lia.
  assert (Em : m = 2) by (rewrite <- Hm; reflexivity). subst m.
  assert (Ey : y = yoe + era * 400 + 1) by (rewrite <- Hy; reflexivity).
  rewrite <- Hl, <- (is_leap_shift (yoe + 1) era). f_equal. lia.
Qed.

Lemma yoe_inverse yoe doy :
  0 ≤ yoe ≤ 399 → 0 ≤ doy ≤ 365 →
  (doy = 365 → calendar.is_leap (yoe + 1) = true) →
  let doe := yoe * 365 + yoe / 4 - yoe / 100 + doy in
  (doe - doe / 1460 + doe / 36524 - doe / 146096) / 365 = yoe
  ∧ 0 ≤ doe < 146097.
Proof.
  intros Hy Hd Hl. cbv zeta.
  assert (Hl' : doy = 365 →
                (yoe + 1) mod 4 = 0
                ∧ ((yoe + 1) mod 100 ≠ 0 ∨ (yoe + 1) mod 400 = 0))
    by (intros E; apply is_leap_spec; auto).
  clear Hl.
  Z.to_euclidean_division_equations. lia.
Qed.

Lemma doy_of_month yl m d mp doy :
  1 ≤ m ≤ 12 → 1 ≤ d ≤ calendar.days_in_month yl m →
  mp = (if m <=? 2 then m + 9 else m - 3) →
  doy = (153 * mp + 2) / 5 + d - 1 →
  0 ≤ mp ≤ 11 ∧ 0 ≤ doy ≤ 365 ∧ (doy = 365 → calendar.is_leap yl = true)
  ∧ (5 * doy + 2) / 153 = mp ∧ doy - (153 * mp + 2) / 5 + 1 = d
  ∧ (if mp <? 10 then mp + 3 else mp - 9) = m.
Proof.
  intros Hm Hd -> ->.
  assert (Hc : m = 1 ∨ m = 2 ∨ m = 3 ∨ m = 4 ∨ m = 5 ∨ m = 6 ∨ m = 7
               ∨ m = 8 ∨ m = 9 ∨ m = 10 ∨ m = 11 ∨ m = 12) by lia.
  destruct Hc as [->|[->|[->|[->|[->|[->|[->|[->|[->|[->|[->| ->]]]]]]]]]]];
    revert Hd; eval_consts; intros Hd; try destruct (calendar.is_leap yl);
    repeat split; try lia;
    try (intros E; exfalso; revert E; lia);
    Z.to_euclidean_division_equations; lia.
Qed.

(** Date to day number and back, for a date of the calendar. *)
Lemma civil_from_days_from_civil y m d :
  1 ≤ m ≤ 12 → 1 ≤ d ≤ calendar.days_in_month y m →
  calendar.civil_from_days (calendar.days_from_civil y m d) = (y, m, d).
Proof.
  intros Hm Hd. unfold calendar.days_from_civil. cbv zeta.
  remember (if m <=? 2 then y - 1 else y) as y' eqn:Ey'.
  remember (if m <=? 2 then m + 9 else m - 3) as mp eqn:Emp.
  remember ((153 * mp + 2) / 5 + d - 1) as doy eqn:Edoy.
  remember (y' mod 400) as yoe eqn:Eyoe.
  remember (y' / 400) as era eqn:Eera.
  assert (Hyoe : 0 ≤ yoe ≤ 399)
    by (subst yoe; Z.to_euclidean_division_equations; lia).
  assert (Hy' : y' = era * 400 + yoe)
    by (subst yoe era; Z.to_euclidean_division_equations; lia).
  destruct (doy_of_month y m d mp doy Hm Hd Emp Edoy)
    as (Hmp & Hdoy & Hl & Hmp' & Hd' & Hm').
  assert (Hl' : doy = 365 → calendar.is_leap (yoe + 1) = true).
  { intros E. rewrite <- (Hl E).
    assert (mp = 11)
      by (revert Hmp'; subst doy; Z.to_euclidean_division_equations; lia).
    assert (Hm2 : m = 2) by (revert Emp; split_ifs).
    assert (y' = y - 1) by (rewrite Ey'; destruct (Z.leb_spec m 2); lia).
    rewrite <- (is_leap_shift (yoe + 1) era). f_equal. lia. }
  destruct (yoe_inverse yoe doy Hyoe Hdoy Hl') as [Hinv Hdoe].
  cbv zeta in Hinv, Hdoe.
  unfold calendar.civil_from_days. cbv zeta.
  remember (yoe * 365 + yoe / 4 - yoe / 100 + doy) as doe eqn:Edoe.
  replace (era * 146097 + doe - 719468 + 719468) with (doe + era * 146097)
    by lia.
  rewrite Z.div_add, Z.mod_add by lia.
  rewrite (Z.div_small doe), (Z.mod_small doe) by lia.
  rewrite Hinv.
  replace (doe - (365 * yoe + yoe / 4 - yoe / 100)) with doy
    by (subst doe; lia).
  rewrite Hmp', Hd', Hm'.
  f_equal. f_equal. subst y'. split_ifs.
Qed.

Lemma mk_datetime_raises f us e :
  py.mk_datetime f us = Raise e → e = RangeError.
Proof.
  destruct f as [[[[[y m] d] hh] mm] ss]. unfold py.mk_datetime.
  destruct ((1 <=? y) && (y <=? 9999)); [done|]. by intros [= <-].
Qed.

Lemma mk_datetime_fields tz t us dt :
  py.mk_datetime (py.localtime tz t) us = Ok dt →
  1 ≤ datetime.year dt ≤ 9999
  ∧ 1 ≤ datetime.month dt ≤ 12
  ∧ 1 ≤ datetime.day dt ≤ 31
  ∧ 0 ≤ datetime.hour dt ≤ 23
  ∧ 0 ≤ datetime.minute dt ≤ 59
  ∧ 0 ≤ datetime.second dt ≤ 59.
Proof.
  intros H%mk_datetime_localtime. cbv zeta in H.
  destruct H as (Hc & -> & -> & -> & _ & Hy).
  apply civil_from_days_fields in Hc as [Hm Hd].
  repeat split; try lia; Z.to_euclidean_division_equations; lia.
Qed.

Lemma mk_datetime_timegm tz t us dt :
  py.mk_datetime (py.localtime tz t) us = Ok dt → timegm dt = t + tz t.
Proof.
  intros H%mk_datetime_localtime. cbv zeta in H.
  destruct H as (Hc & Hh & Hm & Hs & _ & _).
  apply days_from_civil_from_days in Hc.
  unfold timegm. rewrite Hc, Hh, Hm, Hs.
  Z.to_euclidean_division_equations. lia.
Qed.

End calendar_facts.

(** ** The timestamp UDF *)

Section timestamp.
Local Open Scope Z_scope.

Lemma round_inject_Z (q : Q) (n : Z) : (q == inject_Z n)%Q → py.round q = n.
Proof.
  intros H. unfold py.round.
  assert (Hf : Qfloor q = n) by (rewrite H; apply Qfloor_Z).
  rewrite Hf.
  assert (Hc : ((q - inject_Z n)%Q ?= (1 # 2)%Q)%Q = Lt).
  { rewrite H. assert (E : (inject_Z n - inject_Z n == 0)%Q) by ring.
    rewrite E. reflexivity. }
  by rewrite Hc.
Qed.

Lemma modf_millis (x : Z) :
  py.modf (x # 1000)
  = (((x # 1000) - inject_Z (Z.quot x 1000))%Q, Z.quot x 1000).
Proof. reflexivity. Qed.

(** The fractional part of [x/1000] seconds is a whole number of
    microseconds. *)
Lemma frac_micros (x : Z) :
  (((x # 1000) - inject_Z (Z.quot x 1000)) * inject_Z 1000000
   == inject_Z (Z.rem x 1000 * 1000))%Q.
Proof.
  unfold Qeq, Qmult, Qminus, Qplus, Qopp, inject_Z. cbn [Qnum Qden].
  change (Z.pos (1000 * 1 * 1)) with 1000.
  pose proof (Z.quot_rem' x 1000). lia.
Qed.

Lemma mk_datetime_replace f us :
  (d ← py.mk_datetime f us; Ok (datetime.replace_microsecond d 0))
  = py.mk_datetime f 0.
Proof.
  destruct f as [[[[[y m] d] hh] mm] ss]. unfold py.mk_datetime.
  by destruct ((1 <=? y) && (y <=? 9999)).
Qed.

Lemma mk_datetime_microsecond f us d :
  py.mk_datetime f us = Ok d → datetime.microsecond d = us.
Proof.
  destruct f as [[[[[y m] d'] hh] mm] ss]. unfold py.mk_datetime.
  destruct ((1 <=? y) && (y <=? 9999)); [|done]. by intros [= <-].
Qed.

Lemma fromtimestamp_millis tz (x : Z) :
  py.fromtimestamp tz (x # 1000)
  = py.datetime_from_timet_and_us tz (x / 1000) (x mod 1000 * 1000).
Proof.
  unfold py.fromtimestamp. rewrite modf_millis.
  rewrite (round_inject_Z _ _ (frac_micros x)).
  pose proof (Z.quot_rem' x 1000) as Hqr.
  pose proof (Z.div_mod x 1000 ltac:(lia)) as Hdm.
  pose proof (Z.mod_pos_bound x 1000 ltac:(lia)) as Hm.
  destruct (Z.le_gt_cases 0 x) as [Hx|Hx].
  - pose proof (Z.rem_bound_pos x 1000 Hx ltac:(lia)) as Hr.
    assert (Z.quot x 1000 = x / 1000 ∧ Z.rem x 1000 = x mod 1000)
      as [-> ->] by lia.
    destruct (Z.leb_spec 1000000 (x mod 1000 * 1000)); [lia|].
    destruct (Z.ltb_spec (x mod 1000 * 1000) 0); [lia|]. done.
  - pose proof (Z.rem_bound_abs x 1000 ltac:(lia)) as Hr.
    pose proof (Z.rem_nonpos x 1000 ltac:(lia) ltac:(lia)) as Hr'.
    destruct (Z.leb_spec 1000000 (Z.rem x 1000 * 1000)); [lia|].
    destruct (Z.ltb_spec (Z.rem x 1000 * 1000) 0).
    + assert (Z.quot x 1000 - 1 = x / 1000
              ∧ Z.rem x 1000 * 1000 + 1000000 = x mod 1000 * 1000)
        as [-> ->] by lia.
      done.
    + assert (Z.quot x 1000 = x / 1000 ∧ Z.rem x 1000 = x mod 1000)
        as [-> ->] by lia.
      done.
Qed.

Lemma localtime_second tz t y m d hh mm ss :
  py.localtime tz t = (y, m, d, hh, mm, ss) → Z.min ss 59 = ss.
Proof.
  unfold py.localtime. cbv zeta.
  destruct (calendar.civil_from_days _) as [[y' m'] d'].
  intros [= _ _ _ _ _ <-]. apply Z.min_l.
  Z.to_euclidean_division_equations; lia.
Qed.

(** The wall clock a zone shows, as [utc_to_seconds] counts it. *)
Lemma utc_to_seconds_localtime tz t :
  py.utc_to_seconds (py.localtime tz t)
  = if in_years_1_9999 (local_seconds tz t)
    then Ok (local_seconds tz t + py.epoch)
    else Raise RangeError.
Proof.
  unfold py.localtime, py.utc_to_seconds, local_seconds, in_years_1_9999.
  cbv zeta.
  destruct (calendar.civil_from_days ((t + tz t) / 86400)) as [[y m] d] eqn:E.
  destruct (civil_year_range _ _ _ _ E) as [Hy1 Hy2].
  pose proof (days_from_civil_from_days _ _ _ _ E) as Hd.
  assert (Hr : -719162 ≤ (t + tz t) / 86400 ≤ 2932896
               ↔ -62135596800 ≤ t + tz t < 253402300800)
    by (Z.to_euclidean_division_equations; lia).
  destruct Hr as [Hr1 Hr2].
  destruct (Z.leb_spec 1 y), (Z.leb_spec y 9999),
           (Z.leb_spec (-62135596800) (t + tz t)),
           (Z.ltb_spec (t + tz t) 253402300800);
    simpl; try reflexivity; try (exfalso; lia).
  f_equal. unfold py.ymd_to_ord, py.epoch. rewrite Hd.
  Z.to_euclidean_division_equations; lia.
Qed.

Lemma local_spec tz u :
  py.local tz u
  = if in_years_1_9999 (local_seconds tz (u - py.epoch))
    then Ok (local_seconds tz (u - py.epoch) + py.epoch)
    else Raise RangeError.
Proof. apply utc_to_seconds_localtime. Qed.

Lemma in_years_mk_datetime tz t us :
  in_years_1_9999 (local_seconds tz t) = true →
  ∃ dt, py.mk_datetime (py.localtime tz t) us = Ok dt.
Proof.
  unfold in_years_1_9999, local_seconds.
  intros [H1 H2]%andb_true_iff. apply Z.leb_le in H1. apply Z.ltb_lt in H2.
  apply mk_datetime_localtime_Ok. lia.
Qed.

(** [fromtimestamp] on a whole second: it converts the instants that are
    [convertible], to the wall clock at the instant, and raises on the
    others. *)
Lemma datetime_from_timet_and_us_spec tz t us :
  py.datetime_from_timet_and_us tz t us
  = if convertible tz t then py.mk_datetime (py.localtime tz t) us
    else Raise RangeError.
Proof.
  unfold py.datetime_from_timet_and_us, convertible.
  destruct (py.localtime tz t) as [[[[[y m] d] hh] mm] ss] eqn:E.
  rewrite (localtime_second _ _ _ _ _ _ _ _ E), <- E.
  rewrite utc_to_seconds_localtime.
  destruct (in_years_1_9999 (local_seconds tz t)); cbn [mbind result_bind andb];
    [|done].
  rewrite local_spec.
  replace (py.epoch + t - py.max_fold_seconds - py.epoch) with (t - 86400)
    by (unfold py.max_fold_seconds; lia).
  destruct (in_years_1_9999 (local_seconds tz (t - 86400)));
    cbn [mbind result_bind andb]; [|done].
  replace (local_seconds tz t + py.epoch
           - (local_seconds tz (t - 86400) + py.epoch) - py.max_fold_seconds)
    with (tz t - tz (t - 86400))
    by (unfold local_seconds, py.max_fold_seconds; lia).
  destruct (tz t - tz (t - 86400) <? 0); [|done].
  rewrite local_spec.
  replace (py.epoch + t + (tz t - tz (t - 86400)) - py.epoch)
    with (t + (tz t - tz (t - 86400))) by lia.
  by destruct (in_years_1_9999 (local_seconds tz (t + (tz t - tz (t - 86400))))).
Qed.

Lemma get_timestamp_second tz ms :
  get_timestamp tz (Some ms)
  = if convertible tz (ms / 1000)
    then py.mk_datetime (py.localtime tz (ms / 1000)) 0
    else Raise RangeError.
Proof.
  unfold get_timestamp, py.truediv. cbn [mbind result_bind].
  rewrite fromtimestamp_millis, datetime_from_timet_and_us_spec.
  destruct (convertible tz (ms / 1000)); [apply mk_datetime_replace|done].
Qed.

Lemma get_timestamp_Some tz ms dt :
  get_timestamp tz (Some ms) = Ok dt →
  py.mk_datetime (py.localtime tz (ms / 1000)) 0 = Ok dt.
Proof.
  rewrite get_timestamp_second. by destruct (convertible tz (ms / 1000)).
Qed.

(** When the UDF raises: on a null [ts], and on an instant that is not
    [convertible]. *)
Lemma get_timestamp_Raise tz ts err :
  get_timestamp tz ts = Raise err →
  match ts with
  | None => err = TypeError
  | Some ms => err = RangeError ∧ convertible tz (ms / 1000) = false
  end.
Proof.
  destruct ts as [ms|]; [|by intros [= <-]].
  rewrite get_timestamp_second.
  destruct (convertible tz (ms / 1000)) eqn:Hc; [|by intros [= <-]].
  intros H. exfalso.
  unfold convertible in Hc. apply andb_true_iff in Hc as [Hc _].
  apply andb_true_iff in Hc as [Hc _].
  destruct (in_years_mk_datetime tz (ms / 1000) 0 Hc) as [dt Hdt]. congruence.
Qed.

Ltac bool_props :=
  repeat match goal with
  | H : (_ && _)%bool = true |- _ => apply andb_true_iff in H as [? ?]
  | H : (_ <=? _) = true |- _ => apply Z.leb_le in H
  | H : (_ <? _) = true |- _ => apply Z.ltb_lt in H
  | H : (_ =? _) = true |- _ => apply Z.eqb_eq in H
  end.

(** The wall clock the UDF returns is the calendar timestamp of [ts]. *)
Lemma mk_datetime_is_calendar_timestamp tz ms dt :
  py.mk_datetime (py.localtime tz (ms / 1000)) 0 = Ok dt →
  is_calendar_timestamp tz ms dt = true.
Proof.
  intros H.
  pose proof (mk_datetime_timegm _ _ _ _ H) as Hg.
  pose proof (mk_datetime_localtime _ _ _ _ H) as Hf. cbv zeta in Hf.
  destruct Hf as (Hc & Hh & Hm & Hs & Hus & Hy).
  apply civil_from_days_valid in Hc as [Hmo Hd].
  unfold is_calendar_timestamp, valid_datetime.
  rewrite Hg, Hus.
  repeat (apply andb_true_iff; split);
    try apply Z.leb_le; try apply Z.ltb_lt; try apply Z.eqb_eq;
    try lia; try (rewrite ?Hh, ?Hm, ?Hs; Z.to_euclidean_division_equations; lia).
Qed.

(** There is one calendar timestamp of a [ts] at most. *)
Lemma is_calendar_timestamp_unique tz ms d1 d2 :
  is_calendar_timestamp tz ms d1 = true →
  is_calendar_timestamp tz ms d2 = true → d1 = d2.
Proof.
  unfold is_calendar_timestamp, valid_datetime. intros H1 H2. bool_props.
  assert (Hg : timegm d1 = timegm d2) by lia.
  unfold timegm in Hg.
  assert (Hdays : calendar.days_from_civil
                    (datetime.year d1) (datetime.month d1) (datetime.day d1)
                  = calendar.days_from_civil
                      (datetime.year d2) (datetime.month d2) (datetime.day d2))
    by lia.
  assert (Hdate : (datetime.year d1, datetime.month d1, datetime.day d1)
                  = (datetime.year d2, datetime.month d2, datetime.day d2)).
  { rewrite <- (civil_from_days_from_civil
                  (datetime.year d1) (datetime.month d1) (datetime.day d1))
      by lia.
    rewrite Hdays. apply civil_from_days_from_civil; lia. }
  injection Hdate as Ey Em Ed.
  assert (datetime.hour d1 = datetime.hour d2
          ∧ datetime.minute d1 = datetime.minute d2
          ∧ datetime.second d1 = datetime.second d2) as (Eh & Emi & Es) by lia.
  destruct d1, d2. simpl in *. congruence.
Qed.
End timestamp.

Lemma traverse_Raise {A B} (f : A → result B) l e :
  traverse f l = Raise e → ∃ x, x ∈ l ∧ f x = Raise e.
Proof.
  induction l as [|x l IH]; simpl; [done|].
  destruct (f x) as [y|e'] eqn:E; simpl.
  - destruct (traverse f l) as [ys|e'']; simpl; [done|].
    intros [= ->]. destruct IH as (x' & Hx' & Hf); [done|].
    exists x'. split; [by right|done].
  - intros [= ->]. exists x. split; [by left|done].
Qed.

(** C6: when the UDF succeeds on every play row, the view [time] is the play
    rows, each with a non-null [ts] and, as [start_time], the calendar
    timestamp of that [ts]: the date and time of day, microsecond 0, of the
    second [ts / 1000] falls in; no other value is one.  Otherwise the UDF
    raised on some play row: TypeError on a null [ts], the range error on a
    [ts] that is not convertible. *)
Theorem start_time_is_calendar_timestamp (tz : tzinfo) (l : list Log.row) :
  match with_start_time tz (filter_plays l) with
  | Ok time =>
      Forall2
        (λ e r, Time.log r = e
                ∧ ∃ ms dt, Log.ts e = Some ms
                           ∧ Time.start_time r = Some dt
                           ∧ is_calendar_timestamp tz ms dt = true
                           ∧ ∀ dt', is_calendar_timestamp tz ms dt' = true →
                                    dt' = dt)
        (filter_plays l) time
  | Raise err =>
      ∃ e, e ∈ filter_plays l
           ∧ get_timestamp tz (Log.ts e) = Raise err
           ∧ match Log.ts e with
             | None => err = TypeError
             | Some ms =>
                 err = RangeError ∧ convertible tz (ms / 1000)%Z = false
             end
  end.
Proof.
  destruct (with_start_time tz (filter_plays l)) as [time|err] eqn:E.
  - apply traverse_Ok_Forall2 in E.
    eapply Forall2_impl; [exact E|]. cbv beta. intros e r H.
    destruct (get_timestamp tz (Log.ts e)) as [dt|] eqn:Eg; simpl in H; [|done].
    injection H as <-. split; [done|].
    destruct (Log.ts e) as [ms|]; [|done].
    exists ms, dt. split; [done|]. split; [done|].
    apply get_timestamp_Some, mk_datetime_is_calendar_timestamp in Eg.
    split; [done|]. intros dt' H'.
    by apply (is_calendar_timestamp_unique tz ms).
  - apply traverse_Raise in E as (e & He & H). exists e. split; [done|].
    assert (Hr : get_timestamp tz (Log.ts e) = Raise err)
      by (destruct (get_timestamp tz (Log.ts e)); simpl in H; congruence).
    split; [done|]. by apply get_timestamp_Raise.
Qed.

(** Two zones with the same offset at the instant of [ts] need not both
    give a timestamp: [fromtimestamp] also reads the offset 24 hours back.
    On the first day of year 1, UTC has no wall clock a day earlier and the
    conversion raises; a zone that was an hour ahead until the evening
    before has one, and the conversion returns 0001-01-01 23:20:00. *)
Lemma same_offset_different_outcome :
  let tz1 : tzinfo := λ _, 0%Z in
  let tz2 : tzinfo := λ u, if (u <? -62135552800)%Z then 3600%Z else 0%Z in
  let ts := (-62135512800000)%Z in
  tz1 (ts / 1000)%Z = tz2 (ts / 1000)%Z
  ∧ get_timestamp tz1 (Some ts) = Raise RangeError
  ∧ get_timestamp tz2 (Some ts)
    = Ok {| datetime.year := 1; datetime.month := 1; datetime.day := 1;
            datetime.hour := 23; datetime.minute := 20;
            datetime.second := 0; datetime.microsecond := 0 |}.
Proof. repeat split; vm_compute; reflexivity. Qed.



(** C7: every row of [timetable] is the derivation applied to its own
    [start_time]; hence rows with equal [start_time] agree on hour, day,
    week, month, year and weekday. *)
Theorem time_columns_function_of_start_time (tz : tzinfo) (layout : partitioning) (s s' : S3.t) :
  process_log_data tz layout s = (s', Ok ()) →
  (∀ r, r ∈ S3.timetable s' → r = time_columns (TimeTable.start_time r))
  ∧ (∀ r1 r2, r1 ∈ S3.timetable s' → r2 ∈ S3.timetable s' →
       TimeTable.start_time r1 = TimeTable.start_time r2 →
       TimeTable.hour r1 = TimeTable.hour r2
       ∧ TimeTable.day r1 = TimeTable.day r2
       ∧ TimeTable.week r1 = TimeTable.week r2
       ∧ TimeTable.month r1 = TimeTable.month r2
       ∧ TimeTable.year r1 = TimeTable.year r2
       ∧ TimeTable.weekday r1 = TimeTable.weekday r2).
Proof.
  intros (time & _ & Ht & _)%process_log_data_Ok.
  assert (H : ∀ r, r ∈ S3.timetable s' →
                   r = time_columns (TimeTable.start_time r)).
  { intros r. rewrite Ht. unfold time_table.
    intros (x & -> & _)%list_elem_of_fmap. done. }
  split; [exact H|].
  intros r1 r2 H1 H2 E.
  rewrite (H r1 H1), (H r2 H2), E. done.
Qed.

Lemma time_columns_function_of_start_time_witness :
  let s := sample.bucket [sample.song "S1" "Song A" "P1" "Band X"]
             [sample.play "10" "Song A" "Band X";
              sample.play "11" "Song B" "Band Y"] in
  let s' := (process_log_data sample.utc sample.one_partition s).1 in
  length (S3.timetable s') = 2
  ∧ (∀ r, r ∈ S3.timetable s' → r = time_columns (TimeTable.start_time r))
  ∧ (∀ r1 r2, r1 ∈ S3.timetable s' → r2 ∈ S3.timetable s' →
       TimeTable.start_time r1 = TimeTable.start_time r2 →
       TimeTable.hour r1 = TimeTable.hour r2
       ∧ TimeTable.day r1 = TimeTable.day r2
       ∧ TimeTable.week r1 = TimeTable.week r2
       ∧ TimeTable.month r1 = TimeTable.month r2
       ∧ TimeTable.year r1 = TimeTable.year r2
       ∧ TimeTable.weekday r1 = TimeTable.weekday r2).
Proof.
  intros s s'. split; [vm_compute; reflexivity|].
  apply (time_columns_function_of_start_time sample.utc sample.one_partition s s').
  vm_compute. reflexivity.
Defined.

(** ** The fact relation *)

Lemma sql_eq_sym {A} `{EqDecision A} (a b : option A) : sql.eq a b = sql.eq b a.
Proof.
  destruct a as [x|], b as [y|]; simpl; try done.
  f_equal. apply bool_decide_ext. naive_solver.
Qed.

Section pairs.
Context {A B C : Type} (f : A → B → C).

Lemma length_bind_singleton (x : A) (l : list B) :
  length (y ← l; [f x y]) = length l.
Proof.
  induction l as [|y l IH]; [done|].
  rewrite bind_cons. simpl. by rewrite IH.
Qed.

Lemma length_bind_pairs (l1 : list A) (l2 : list B) :
  length (x ← l1; y ← l2; [f x y]) = length l1 * length l2.
Proof.
  induction l1 as [|x l1 IH]; [done|].
  rewrite bind_cons, length_app, length_bind_singleton, IH. simpl. lia.
Qed.

Lemma elem_of_bind_pairs (l1 : list A) (l2 : list B) (z : C) :
  z ∈ (x ← l1; y ← l2; [f x y]) ↔ ∃ x y, x ∈ l1 ∧ y ∈ l2 ∧ z = f x y.
Proof.
  rewrite list_elem_of_bind. split.
  - intros (x & Hz & Hx). apply list_elem_of_bind in Hz as (y & Hz & Hy).
    apply list_elem_of_singleton in Hz. eauto.
  - intros (x & y & Hx & Hy & ->). exists x. split; [|done].
    apply list_elem_of_bind. exists y. split; [|done].
    by apply list_elem_of_singleton.
Qed.
End pairs.

Lemma count_where_artists (e : Log.row) (artists : list Artists.row) :
  length (sql.where_ (λ at_, sql.eq (Log.artist e) (Artists.name at_)) artists)
  = count_where Artists.name (Log.artist e) artists.
Proof.
  unfold count_where, sql.where_. f_equal.
  apply list_filter_iff. intros a. by rewrite sql_eq_sym.
Qed.

Lemma length_join_row se songs artists :
  length (join_row se songs artists)
  = count_where Songs.title (Log.song (Time.log se)) songs
    * count_where Artists.name (Log.artist (Time.log se)) artists.
Proof.
  unfold join_row.
  rewrite (length_bind_pairs (λ ss at_, (se, ss, at_))).
  by rewrite count_where_artists.
Qed.

Lemma join_row_nil se songs artists :
  count_where Songs.title (Log.song (Time.log se)) songs = 0
  ∨ count_where Artists.name (Log.artist (Time.log se)) artists = 0 →
  join_row se songs artists = [].
Proof.
  intros H. apply nil_length_inv. rewrite length_join_row. lia.
Qed.

Lemma songplays_join_cons se time songs artists :
  songplays_join (se :: time) songs artists
  = join_row se songs artists ++ songplays_join time songs artists.
Proof. reflexivity. Qed.

Lemma songplays_join_app t1 t2 songs artists :
  songplays_join (t1 ++ t2) songs artists
  = songplays_join t1 songs artists ++ songplays_join t2 songs artists.
Proof. unfold songplays_join. apply bind_app. Qed.

Lemma length_songplays_join time songs artists :
  length (songplays_join time songs artists)
  = sum_list_with
      (λ se, count_where Songs.title (Log.song (Time.log se)) songs
             * count_where Artists.name (Log.artist (Time.log se)) artists)
      time.
Proof.
  induction time as [|se time IH]; [done|].
  rewrite songplays_join_cons, length_app, length_join_row, IH. done.
Qed.

Lemma length_songplays_table layout time songs artists :
  length (songplays_table layout time songs artists)
  = length (songplays_join time songs artists).
Proof. unfold songplays_table. apply length_imap. Qed.

Lemma with_start_time_log tz df time :
  with_start_time tz df = Ok time → Time.log <$> time = df.
Proof.
  intros H%traverse_Ok_Forall2.
  induction H as [|e r df time Hr _ IH]; [done|].
  rewrite fmap_cons, IH. f_equal.
  destruct (get_timestamp tz (Log.ts e)); simpl in Hr; [|done].
  by injection Hr as <-.
Qed.

Lemma sum_list_with_fmap {A B} (g : A → B) (f : B → nat) (l : list A) :
  sum_list_with f (g <$> l) = sum_list_with (f ∘ g) l.
Proof. induction l as [|x l IH]; simpl; [done|]. f_equal. exact IH. Qed.

Lemma sum_list_with_le {A} (f : A → nat) (n : nat) (l : list A) :
  (∀ x, x ∈ l → f x ≤ n) → sum_list_with f l ≤ length l * n.
Proof.
  induction l as [|x l IH]; intros H; simpl; [done|].
  pose proof (H x ltac:(left)) as Hx.
  assert (sum_list_with f l ≤ length l * n) by (apply IH; intros; apply H; by right).
  lia.
Qed.

Lemma count_where_le {R A} `{EqDecision A} (col : R → option A) v (t : list R) :
  count_where col v t ≤ length t.
Proof. apply length_where. Qed.

(** A value occurs on at most one row of a column without repetitions. *)
Lemma count_where_NoDup {R A} `{EqDecision A} (col : R → option A) v
    (t : list R) :
  NoDup (col <$> t) → count_where col v t ≤ 1.
Proof.
  unfold count_where.
  induction t as [|r t IH]; intros Hnd; [simpl; lia|].
  rewrite fmap_cons in Hnd. apply NoDup_cons in Hnd as [Hr Hnd].
  destruct (sql.holds (sql.eq (col r) v)) eqn:E.
  - rewrite where_cons_keep by done.
    rewrite where_none; [simpl; lia|].
    intros r' Hr'. destruct (sql.holds (sql.eq (col r') v)) eqn:E'; [|done].
    apply holds_eq in E as (x & Ex & ->).
    apply holds_eq in E' as (x' & Ex' & [= ->]).
    exfalso. apply Hr. rewrite Ex, <- Ex'. by apply list_elem_of_fmap_2.
  - rewrite where_cons_drop by done. by apply IH.
Qed.

Lemma elem_of_songplays_table layout time songs artists r :
  r ∈ songplays_table layout time songs artists →
  ∃ se ss at_ id,
    se ∈ time ∧ ss ∈ songs ∧ at_ ∈ artists
    ∧ sql.eq (Songs.title ss) (Log.song (Time.log se)) = Some true
    ∧ sql.eq (Log.artist (Time.log se)) (Artists.name at_) = Some true
    ∧ r = songplays_columns id (se, ss, at_).
Proof.
  unfold songplays_table. intros (i & j & -> & Hj)%elem_of_lookup_imap.
  apply list_elem_of_lookup_2 in Hj.
  unfold songplays_join in Hj. apply list_elem_of_bind in Hj as (se & Hj & Hse).
  unfold join_row in Hj.
  apply (elem_of_bind_pairs (λ ss at_, (se, ss, at_))) in Hj
    as (ss & at_ & Hss & Hat & ->).
  apply elem_of_where in Hss as [Hs Hss].
  apply elem_of_where in Hat as [Ha Hat].
  exists se, ss, at_, (spark.monotonically_increasing_id layout i).
  repeat split; try done.
  - destruct (sql.eq (Songs.title ss) (Log.song (Time.log se))) as [[]|]; done.
  - destruct (sql.eq (Log.artist (Time.log se)) (Artists.name at_)) as [[]|]; done.
Qed.

(** C1, as stated, fails: the join is on the title, and two songs of the
    catalog may share one.  One play of 'Song A' by 'Band X', with a second
    'Song A' by another artist in the catalog, gives two fact rows. *)
Lemma songplays_outnumber_plays :
  let s := sample.bucket [sample.song "S1" "Song A" "P1" "Band X";
                          sample.song "S2" "Song A" "P2" "Band Y"]
                         [sample.play "10" "Song A" "Band X"] in
  ¬ (length (S3.songsplay (main sample.utc sample.one_partition s).1)
     ≤ length (filter_plays (S3.log_data s))).
Proof. vm_compute. lia. Qed.

(** C1 (amended): after a completed run, the number of rows of [songsplay]
    is the sum, over the play rows, of the number of [songs] rows with the
    play's title times the number of [artists] rows with the play's artist
    name; it is at most plays x songs x artists, and at most the number of
    play rows when no title is on two [songs] rows and no name on two
    [artists] rows.  The song_id and artist_id of every row are those of a
    [songs] row and of an [artists] row. *)
Theorem songplays_count_and_keys (tz : tzinfo) (layout : partitioning) (s s' : S3.t) :
  process_log_data tz layout s = (s', Ok ()) →
  let plays := filter_plays (S3.log_data s) in
  length (S3.songsplay s')
  = sum_list_with
      (λ e, count_where Songs.title (Log.song e) (S3.songs s')
            * count_where Artists.name (Log.artist e) (S3.artists s'))
      plays
  ∧ length (S3.songsplay s')
    ≤ length plays * (length (S3.songs s') * length (S3.artists s'))
  ∧ (NoDup (Songs.title <$> S3.songs s') →
     NoDup (Artists.name <$> S3.artists s') →
     length (S3.songsplay s') ≤ length plays)
  ∧ (∀ r, r ∈ S3.songsplay s' →
       (∃ ss, ss ∈ S3.songs s' ∧ Songs.song_id ss = SongPlays.song_id r)
       ∧ (∃ a, a ∈ S3.artists s'
               ∧ Artists.artist_id a = SongPlays.artist_id r)).
Proof.
  intros Hrun plays.
  destruct (process_log_data_Ok _ _ _ _ Hrun) as (time & Ht & _ & Hsp).
  destruct (process_log_data_catalog tz layout s) as [Hs Ha].
  rewrite Hrun in Hs, Ha. simpl in Hs, Ha. rewrite Hs, Ha, Hsp.
  pose proof (with_start_time_log _ _ _ Ht) as Hlog. fold plays in Hlog.
  assert (Hcount :
    length (songplays_table layout time (S3.songs s) (S3.artists s))
    = sum_list_with
        (λ e, count_where Songs.title (Log.song e) (S3.songs s)
              * count_where Artists.name (Log.artist e) (S3.artists s))
        plays).
  { rewrite length_songplays_table, length_songplays_join, <- Hlog.
    by rewrite sum_list_with_fmap. }
  split; [exact Hcount|]. split; [|split].
  - rewrite Hcount. apply sum_list_with_le. intros e _.
    apply Nat.mul_le_mono; apply count_where_le.
  - intros Hn1 Hn2. rewrite Hcount.
    rewrite <- (Nat.mul_1_r (length plays)).
    apply sum_list_with_le. intros e _.
    pose proof (count_where_NoDup Songs.title (Log.song e) _ Hn1).
    pose proof (count_where_NoDup Artists.name (Log.artist e) _ Hn2).
    nia.
  - intros r (se & ss & at_ & id & _ & Hss & Hat & _ & _ & ->)
             %elem_of_songplays_table.
    split; [by exists ss | by exists at_].
Qed.

Lemma songplays_count_and_keys_witness :
  let s := process_song_data
             (sample.bucket [sample.song "S1" "Song A" "P1" "Band X";
                             sample.song "S2" "Song B" "P2" "Band Y"]
                            [sample.play "10" "Song A" "Band X";
                             sample.play "11" "Song C" "Band Y"]) in
  let s' := (process_log_data sample.utc sample.one_partition s).1 in
  let plays := filter_plays (S3.log_data s) in
  length (S3.songsplay s') = 1
  ∧ length (S3.songsplay s')
    = sum_list_with
        (λ e, count_where Songs.title (Log.song e) (S3.songs s')
              * count_where Artists.name (Log.artist e) (S3.artists s'))
        plays
  ∧ length (S3.songsplay s')
    ≤ length plays * (length (S3.songs s') * length (S3.artists s'))
  ∧ (NoDup (Songs.title <$> S3.songs s') →
     NoDup (Artists.name <$> S3.artists s') →
     length (S3.songsplay s') ≤ length plays)
  ∧ (∀ r, r ∈ S3.songsplay s' →
       (∃ ss, ss ∈ S3.songs s' ∧ Songs.song_id ss = SongPlays.song_id r)
       ∧ (∃ a, a ∈ S3.artists s'
               ∧ Artists.artist_id a = SongPlays.artist_id r)).
Proof.
  intros s s' plays. split; [vm_compute; reflexivity|].
  apply (songplays_count_and_keys sample.utc sample.one_partition s s').
  vm_compute. reflexivity.
Defined.

Lemma filter_plays_keep l1 e l2 :
  Log.page e = Some "NextSong" →
  filter_plays (l1 ++ e :: l2) = filter_plays l1 ++ e :: filter_plays l2.
Proof.
  intros H. unfold filter_plays. rewrite where_app. f_equal.
  apply where_cons_keep. apply holds_eq. eauto.
Qed.

Lemma filter_plays_app l1 l2 :
  filter_plays (l1 ++ l2) = filter_plays l1 ++ filter_plays l2.
Proof. apply where_app. Qed.

(** C8: a play row with no [songs] row of its title, or no [artists] row of
    its artist name, adds nothing to [songsplay], and the miss raises
    nothing: the run completes exactly when it completes without the row and
    the row's own timestamp can be derived, and then writes the [songsplay]
    it writes without the row (the generated songplay_id too, when the two
    runs lay the rows out in partitions alike). *)
Theorem unmatched_play_contributes_nothing (tz : tzinfo)
    (layout layout' : partitioning) (s : S3.t)
    (l1 l2 : list Log.row) (e : Log.row) :
  Log.page e = Some "NextSong" →
  count_where Songs.title (Log.song e) (S3.songs s) = 0
  ∨ count_where Artists.name (Log.artist e) (S3.artists s) = 0 →
  let r := process_log_data tz layout (S3.with_log_data (l1 ++ e :: l2) s) in
  let r' := process_log_data tz layout' (S3.with_log_data (l1 ++ l2) s) in
  (r.2 = Ok () ↔ r'.2 = Ok () ∧ ∃ dt, get_timestamp tz (Log.ts e) = Ok dt)
  ∧ (r.2 = Ok () →
     songplays_data_columns <$> S3.songsplay r.1
     = songplays_data_columns <$> S3.songsplay r'.1
     ∧ ((∀ i, layout i = layout' i) →
        S3.songsplay r.1 = S3.songsplay r'.1)).
Proof.
  intros Hp Hmiss. simpl. unfold process_log_data.
  cbn [S3.log_data S3.with_log_data].
  rewrite (filter_plays_keep l1 e l2 Hp), filter_plays_app.
  unfold with_start_time. rewrite !traverse_app.
  cbn [traverse].
  destruct (traverse _ (filter_plays l1)) as [t1|e1]; cbn [mbind result_bind].
  2: { split; [|done]. split; [done|]. by intros [? _]. }
  destruct (get_timestamp tz (Log.ts e)) as [dt|ee]; cbn [mbind result_bind].
  2: { split; [|done]. split; [done|]. by intros [_ [? ?]]. }
  destruct (traverse _ (filter_plays l2)) as [t2|e2]; cbn [mbind result_bind].
  2: { split; [|done]. split; [done|]. by intros [? _]. }
  split; [split; eauto|]. intros _. cbn.
  assert (E : songplays_join
                (t1 ++ {| Time.log := e; Time.start_time := Some dt |} :: t2)
                (S3.songs s) (S3.artists s)
              = songplays_join (t1 ++ t2) (S3.songs s) (S3.artists s)).
  { rewrite !songplays_join_app, songplays_join_cons.
    by rewrite join_row_nil. }
  split.
  - by rewrite !data_columns_songplays_table, E.
  - intros H. unfold songplays_table. rewrite E.
    by apply songplays_table_layout_ext.
Qed.

Lemma unmatched_play_contributes_nothing_witness :
  let s := process_song_data
             (sample.bucket [sample.song "S1" "Song A" "P1" "Band X"] []) in
  let e := sample.play "11" "Song C" "Band X" in
  let l1 := [sample.play "10" "Song A" "Band X"] in
  let r := process_log_data sample.utc sample.one_partition
             (S3.with_log_data (l1 ++ e :: []) s) in
  let r' := process_log_data sample.utc sample.one_partition
              (S3.with_log_data (l1 ++ []) s) in
  r.2 = Ok () ∧ length (S3.songsplay r.1) = 1
  ∧ (r.2 = Ok ()
     ↔ r'.2 = Ok () ∧ ∃ dt, get_timestamp sample.utc (Log.ts e) = Ok dt)
  ∧ (r.2 = Ok () →
     songplays_data_columns <$> S3.songsplay r.1
     = songplays_data_columns <$> S3.songsplay r'.1
     ∧ ((∀ i, sample.one_partition i = sample.one_partition i) →
        S3.songsplay r.1 = S3.songsplay r'.1)).
Proof.
  intros s e l1.
  split; [vm_compute; reflexivity|]. split; [vm_compute; reflexivity|].
  apply (unmatched_play_contributes_nothing sample.utc sample.one_partition
           sample.one_partition s l1 [] e).
  - reflexivity.
  - left. vm_compute. reflexivity.
Defined.

(** ** The end-to-end scenario, evaluated *)

(** [ts = 1541121934796] is Friday 2 November 2018, 01:25:34 UTC, in ISO
    week 44. *)
Example scenario_time_row :
  S3.timetable
    (main sample.utc sample.one_partition
       (sample.bucket [sample.song "S1" "Song A" "P1" "Band X"]
                      [sample.play "10" "Song A" "Band X"])).1
  = [ {| TimeTable.start_time :=
           Some {| datetime.year := 2018; datetime.month := 11;
                   datetime.day := 2; datetime.hour := 1;
                   datetime.minute := 25; datetime.second := 34;
                   datetime.microsecond := 0 |};
         TimeTable.hour := Some 1%Z; TimeTable.day := Some 2%Z;
         TimeTable.week := Some 44%Z; TimeTable.month := Some 11%Z;
         TimeTable.year := Some 2018%Z; TimeTable.weekday := Some 6%Z |} ].
Proof. vm_compute. reflexivity. Qed.

(** One catalog record and one matching play: one fact row, joining user 10
    to song S1 and artist P1. *)
Example scenario_fact_row :
  (λ r, (SongPlays.user_id r, SongPlays.song_id r, SongPlays.artist_id r))
    <$> S3.songsplay
          (main sample.utc sample.one_partition
             (sample.bucket [sample.song "S1" "Song A" "P1" "Band X"]
                            [sample.play "10" "Song A" "Band X"])).1
  = [ (Some "10", Some "S1", Some "P1") ].
Proof. vm_compute. reflexivity. Qed.

(** A play row without [ts] makes the UDF raise; [users], written before
    the UDF runs, is there, [songsplay] is not. *)
Example scenario_null_ts :
  let r := main sample.utc sample.one_partition
             (sample.bucket [sample.song "S1" "Song A" "P1" "Band X"]
                [sample.event (Some "NextSong") (Some "10") None
                   "Song A" "Band X"]) in
  r.2 = Raise TypeError ∧ length (S3.users r.1) = 1 ∧ S3.songsplay r.1 = [].
Proof. vm_compute. done. Qed.

(** Week numbers at the turn of a year: 1 January 2021 is in week 53,
    31 December 2018 in week 1. *)
Example scenario_iso_weeks :
  calendar.iso_week 2021 1 1 = 53%Z ∧ calendar.iso_week 2018 12 31 = 1%Z
  ∧ calendar.civil_from_days (calendar.days_from_civil 2000 2 29)
    = (2000, 2, 29)%Z.
Proof. vm_compute. done. Qed.

(** * Further properties of the transforms *)

(** ** The UDF: domain, ranges, inverse *)

Section udf_facts.
Local Open Scope Z_scope.

(** X1: [get_timestamp] raises TypeError on a null [ts]; in a zone whose
    offsets stay within 24 hours it returns a timestamp for every [ts]
    whose second, in local time, lies from 1970-01-01 to 9999-12-29 (the
    probes 24 hours back stay inside the years 1..9999); on a [ts] whose
    local time is before year 1 or after year 9999 it raises the range
    error. *)
Theorem get_timestamp_domain (tz : tzinfo) (ts : option Z) :
  match ts with
  | None => get_timestamp tz ts = Raise TypeError
  | Some ms =>
      let l := ms / 1000 + tz (ms / 1000) in
      ((∀ u, -86400 ≤ tz u ≤ 86400) → 0 ≤ l < 253402128000 →
       ∃ dt, get_timestamp tz ts = Ok dt)
      ∧ (l < -62135596800 ∨ 253402300800 ≤ l →
         get_timestamp tz ts = Raise RangeError)
  end.
Proof.
  destruct ts as [ms|]; [|done]. cbv zeta.
  rewrite get_timestamp_second. split.
  - intros Htz Hl.
    assert (Hc : convertible tz (ms / 1000) = true).
    { unfold convertible, in_years_1_9999, local_seconds.
      pose proof (Htz (ms / 1000)). pose proof (Htz (ms / 1000 - 86400)).
      pose proof (Htz (ms / 1000
                       + (tz (ms / 1000) - tz (ms / 1000 - 86400)))).
      destruct (Z.ltb_spec (tz (ms / 1000) - tz (ms / 1000 - 86400)) 0);
        repeat (apply andb_true_iff; split);
        try apply Z.leb_le; try apply Z.ltb_lt; try reflexivity; lia. }
    rewrite Hc. apply mk_datetime_localtime_Ok. lia.
  - intros Hl.
    assert (Hc : convertible tz (ms / 1000) = false); [|by rewrite Hc].
    unfold convertible.
    assert (in_years_1_9999 (local_seconds tz (ms / 1000)) = false) as ->;
      [|done].
    unfold in_years_1_9999, local_seconds.
    destruct (Z.leb_spec (-62135596800) (ms / 1000 + tz (ms / 1000))),
             (Z.ltb_spec (ms / 1000 + tz (ms / 1000)) 253402300800);
      simpl; try done; lia.
Qed.

Lemma get_timestamp_domain_witness :
  ∃ dt, get_timestamp sample.pst (Some 1541121934796%Z) = Ok dt.
Proof.
  destruct (get_timestamp_domain sample.pst (Some 1541121934796%Z)) as [H _].
  apply H.
  - intros u. unfold sample.pst. lia.
  - vm_compute. split; [discriminate|reflexivity].
Defined.

(** X2: the timestamp returned is a calendar date and a time of day: month
    1..12, day 1..31, hour 0..23, minute and second 0..59, microsecond 0,
    year 1..9999. *)
Theorem get_timestamp_fields (tz : tzinfo) (ts : option Z) (dt : datetime.t) :
  get_timestamp tz ts = Ok dt →
  1 ≤ datetime.year dt ≤ 9999
  ∧ 1 ≤ datetime.month dt ≤ 12
  ∧ 1 ≤ datetime.day dt ≤ 31
  ∧ 0 ≤ datetime.hour dt ≤ 23
  ∧ 0 ≤ datetime.minute dt ≤ 59
  ∧ 0 ≤ datetime.second dt ≤ 59
  ∧ datetime.microsecond dt = 0.
Proof.
  destruct ts as [ms|]; [|done].
  intros H%get_timestamp_Some.
  pose proof (mk_datetime_microsecond _ _ _ H) as Hus.
  apply mk_datetime_fields in H. tauto.
Qed.

Lemma get_timestamp_fields_witness :
  ∃ dt, get_timestamp sample.pst (Some 1541121934796) = Ok dt
        ∧ datetime.hour dt = 17
        ∧ 1 ≤ datetime.year dt ≤ 9999
        ∧ 1 ≤ datetime.month dt ≤ 12
        ∧ 1 ≤ datetime.day dt ≤ 31
        ∧ 0 ≤ datetime.hour dt ≤ 23
        ∧ 0 ≤ datetime.minute dt ≤ 59
        ∧ 0 ≤ datetime.second dt ≤ 59
        ∧ datetime.microsecond dt = 0.
Proof.
  eexists. split; [vm_compute; reflexivity|]. split; [reflexivity|].
  apply (get_timestamp_fields sample.pst (Some 1541121934796)).
  vm_compute. reflexivity.
Defined.



(** X4: in a zone with one offset all year, two [ts] values get the same
    timestamp exactly when they lie in the same second: the sub-second part
    is all the derivation drops. *)
Theorem get_timestamp_same_second (tz : tzinfo) (off a b : Z)
    (dt : datetime.t) :
  (∀ t, tz t = off) →
  get_timestamp tz (Some a) = Ok dt →
  (get_timestamp tz (Some b) = Ok dt ↔ a / 1000 = b / 1000).
Proof.
  intros Htz Ha. split.
  - intros Hb.
    apply get_timestamp_Some, mk_datetime_timegm in Ha.
    apply get_timestamp_Some, mk_datetime_timegm in Hb.
    rewrite !Htz in *. lia.
  - intros E. rewrite get_timestamp_second in *. by rewrite <- E.
Qed.

Lemma get_timestamp_same_second_witness :
  ∃ dt, get_timestamp sample.pst (Some 1541121934796) = Ok dt
        ∧ (get_timestamp sample.pst (Some 1541121934001) = Ok dt
           ↔ 1541121934796 / 1000 = 1541121934001 / 1000).
Proof.
  eexists. split; [vm_compute; reflexivity|].
  apply (get_timestamp_same_second sample.pst (-28800)).
  - reflexivity.
  - vm_compute. reflexivity.
Defined.
End udf_facts.

(** ** Catalog transform: keys, duplicates, input order *)

Lemma elem_of_compute {A} `{EqDecision A} (x : A) (l : list A) :
  bool_decide (x ∈ l) = true → x ∈ l.
Proof. apply bool_decide_eq_true_1. Qed.

(** X5: every [songs] row with a non-null artist_id has its artist in
    [artists]: the two relations come from the same records, and a record
    kept for its song_id and carrying an artist_id is kept for [artists]
    too. *)
Theorem songs_artist_id_resolves (s : S3.t) (r : Songs.row) (a : string) :
  r ∈ S3.songs (process_song_data s) →
  Songs.artist_id r = Some a →
  ∃ ar, ar ∈ S3.artists (process_song_data s) ∧ Artists.artist_id ar = Some a.
Proof.
  rewrite process_song_data_songs, process_song_data_artists.
  intros (x & Hx & _ & ->)%elem_of_songs_table Ha. simpl in Ha.
  exists (artists_columns x). split; [|done].
  apply elem_of_artists_table. exists x. by rewrite Ha.
Qed.

Lemma songs_artist_id_resolves_witness :
  let s := sample.bucket [sample.song "S1" "Song A" "P1" "Band X";
                          sample.song "S2" "Song B" "P2" "Band Y"] [] in
  ∃ ar, ar ∈ S3.artists (process_song_data s)
        ∧ Artists.artist_id ar = Some "P2".
Proof.
  intros s.
  apply (songs_artist_id_resolves s (songs_columns
           (sample.song "S2" "Song B" "P2" "Band Y"))).
  - apply elem_of_compute. vm_compute. reflexivity.
  - reflexivity.
Defined.

(** X6: [songs] depends on the set of catalog records only: two inputs with
    the same records, in any order and any number of copies, give the same
    rows, each once. *)
Theorem songs_depends_on_record_set (s1 s2 : S3.t) :
  (∀ x, x ∈ S3.song_data s1 ↔ x ∈ S3.song_data s2) →
  S3.songs (process_song_data s1) ≡ₚ S3.songs (process_song_data s2).
Proof.
  intros H. rewrite !process_song_data_songs.
  apply NoDup_Permutation; [apply NoDup_distinct..|].
  intros r. rewrite !elem_of_songs_table.
  split; intros (x & Hx & Hr); exists x; (split; [by apply H|done]).
Qed.

Lemma songs_depends_on_record_set_witness :
  let a := sample.song "S1" "Song A" "P1" "Band X" in
  let b := sample.song "S2" "Song B" "P2" "Band Y" in
  length (S3.songs (process_song_data (sample.bucket [a; b; a] []))) = 2
  ∧ S3.songs (process_song_data (sample.bucket [a; b; a] []))
    ≡ₚ S3.songs (process_song_data (sample.bucket [b; a] [])).
Proof.
  intros a b. split; [vm_compute; reflexivity|].
  apply songs_depends_on_record_set. intros x. simpl.
  rewrite !elem_of_cons, !elem_of_nil. tauto.
Defined.

(** X7: [artists], as a multiset of rows, does not depend on the order in
    which the catalog records are read. *)
Theorem artists_order_irrelevant (s1 s2 : S3.t) :
  S3.song_data s1 ≡ₚ S3.song_data s2 →
  S3.artists (process_song_data s1) ≡ₚ S3.artists (process_song_data s2).
Proof.
  intros H. rewrite !process_song_data_artists.
  unfold artists_table, sql.where_.
  apply fmap_Permutation, filter_Permutation, H.
Qed.

Lemma artists_order_irrelevant_witness :
  let a := sample.song "S1" "Song A" "P1" "Band X" in
  let b := sample.song "S2" "Song B" "P2" "Band Y" in
  S3.artists (process_song_data (sample.bucket [a; b] []))
  ≡ₚ S3.artists (process_song_data (sample.bucket [b; a] [])).
Proof.
  intros a b. apply artists_order_irrelevant. simpl. apply Permutation_swap.
Defined.

(** ** Event transform: the time dimension *)

Lemma where_all {R} (c : R → option bool) (t : list R) :
  (∀ r, r ∈ t → sql.holds (c r) = true) → sql.where_ c t = t.
Proof.
  induction t as [|r t IH]; intros H; [done|].
  rewrite where_cons_keep by (apply H; left).
  f_equal. apply IH. intros r' Hr'. apply H. by right.
Qed.

Lemma with_start_time_rows tz df time :
  with_start_time tz df = Ok time →
  Forall2
    (λ e r, ∃ dt, get_timestamp tz (Log.ts e) = Ok dt
                  ∧ r = {| Time.log := e; Time.start_time := Some dt |})
    df time.
Proof.
  intros H%traverse_Ok_Forall2.
  eapply Forall2_impl; [exact H|]. cbv beta. intros e r Hr.
  destruct (get_timestamp tz (Log.ts e)) as [dt|]; simpl in Hr; [|done].
  injection Hr as <-. eauto.
Qed.

Lemma with_start_time_elem tz df time r :
  with_start_time tz df = Ok time → r ∈ time →
  Time.log r ∈ df
  ∧ ∃ dt, get_timestamp tz (Log.ts (Time.log r)) = Ok dt
          ∧ Time.start_time r = Some dt.
Proof.
  intros H%with_start_time_rows Hr.
  apply list_elem_of_lookup_1 in Hr as [i Hi].
  destruct (Forall2_lookup_r _ _ _ _ _ H Hi) as (e & He & dt & Hdt & ->).
  simpl. split; [by eapply list_elem_of_lookup_2|eauto].
Qed.

Lemma time_table_rows tz df time :
  with_start_time tz df = Ok time →
  time_table time = (λ r, time_columns (Time.start_time r)) <$> time.
Proof.
  intros H. unfold time_table. f_equal. apply where_all.
  intros r Hr. destruct (with_start_time_elem _ _ _ _ H Hr) as (_ & dt & _ & ->).
  done.
Qed.

(** X8: after a completed run [timetable] holds one row per play row, the
    timestamp of that row's [ts] with its six derived columns: the filter
    [start_time IS NOT NULL] drops nothing, and plays in the same second
    give equal rows, each kept. *)
Theorem timetable_one_row_per_play (tz : tzinfo) (layout : partitioning) (s s' : S3.t) :
  process_log_data tz layout s = (s', Ok ()) →
  Forall2
    (λ e r, ∃ dt, get_timestamp tz (Log.ts e) = Ok dt
                  ∧ r = time_columns (Some dt))
    (filter_plays (S3.log_data s)) (S3.timetable s').
Proof.
  intros (time & Ht & -> & _)%process_log_data_Ok.
  rewrite (time_table_rows _ _ _ Ht). apply Forall2_fmap_r.
  eapply Forall2_impl; [exact (with_start_time_rows _ _ _ Ht)|].
  cbv beta. intros e r (dt & Hdt & ->). eauto.
Qed.

Lemma timetable_one_row_per_play_witness :
  let s := sample.bucket []
             [sample.play "10" "Song A" "Band X";
              sample.event (Some "Home") None None "" "";
              sample.play "11" "Song B" "Band Y"] in
  let s' := (process_log_data sample.utc sample.one_partition s).1 in
  length (S3.timetable s') = 2
  ∧ Forall2
      (λ e r, ∃ dt, get_timestamp sample.utc (Log.ts e) = Ok dt
                    ∧ r = time_columns (Some dt))
      (filter_plays (S3.log_data s)) (S3.timetable s').
Proof.
  intros s s'. split; [vm_compute; reflexivity|].
  apply (timetable_one_row_per_play sample.utc sample.one_partition s s').
  vm_compute. reflexivity.
Defined.

Lemma time_columns_ranges tz ts dt :
  get_timestamp tz ts = Ok dt →
  ∃ h d w m y wd : Z,
    time_columns (Some dt)
    = {| TimeTable.start_time := Some dt; TimeTable.hour := Some h;
         TimeTable.day := Some d; TimeTable.week := Some w;
         TimeTable.month := Some m; TimeTable.year := Some y;
         TimeTable.weekday := Some wd |}
    ∧ (0 ≤ h ≤ 23 ∧ 1 ≤ d ≤ 31 ∧ 1 ≤ w ≤ 53 ∧ 1 ≤ m ≤ 12
       ∧ 1 ≤ y ≤ 9999 ∧ 1 ≤ wd ≤ 7)%Z.
Proof.
  destruct ts as [ms|]; [|done].
  intros H%get_timestamp_Some%mk_datetime_fields.
  do 6 eexists. split; [reflexivity|].
  split; [lia|]. split; [lia|]. split; [apply iso_week_range|].
  split; [lia|]. split; [lia|].
  pose proof (Z.mod_pos_bound
    (calendar.iso_weekday
       (calendar.days_from_civil (datetime.year dt) (datetime.month dt)
          (datetime.day dt))) 7 ltac:(lia)).
  lia.
Qed.

(** X9: after a completed run every column of every [timetable] row is
    non-null and in its range: hour 0..23, day 1..31, week 1..53,
    month 1..12, year 1..9999, weekday 1..7. *)
Theorem timetable_column_ranges (tz : tzinfo) (layout : partitioning) (s s' : S3.t)
    (r : TimeTable.row) :
  process_log_data tz layout s = (s', Ok ()) →
  r ∈ S3.timetable s' →
  ∃ (dt : datetime.t) (h d w m y wd : Z),
    r = {| TimeTable.start_time := Some dt; TimeTable.hour := Some h;
           TimeTable.day := Some d; TimeTable.week := Some w;
           TimeTable.month := Some m; TimeTable.year := Some y;
           TimeTable.weekday := Some wd |}
    ∧ (0 ≤ h ≤ 23 ∧ 1 ≤ d ≤ 31 ∧ 1 ≤ w ≤ 53 ∧ 1 ≤ m ≤ 12
       ∧ 1 ≤ y ≤ 9999 ∧ 1 ≤ wd ≤ 7)%Z.
Proof.
  intros (time & Ht & -> & _)%process_log_data_Ok.
  rewrite (time_table_rows _ _ _ Ht).
  intros (x & -> & Hx)%list_elem_of_fmap.
  destruct (with_start_time_elem _ _ _ _ Ht Hx) as (_ & dt & Hdt & ->).
  exists dt. by eapply time_columns_ranges.
Qed.

Lemma timetable_column_ranges_witness :
  let s := sample.bucket [] [sample.play "10" "Song A" "Band X"] in
  let s' := (process_log_data sample.pst sample.one_partition s).1 in
  ∃ (r : TimeTable.row) (dt : datetime.t) (h d w m y wd : Z),
    r ∈ S3.timetable s'
    ∧ r = {| TimeTable.start_time := Some dt; TimeTable.hour := Some h;
             TimeTable.day := Some d; TimeTable.week := Some w;
             TimeTable.month := Some m; TimeTable.year := Some y;
             TimeTable.weekday := Some wd |}
    ∧ (0 ≤ h ≤ 23 ∧ 1 ≤ d ≤ 31 ∧ 1 ≤ w ≤ 53 ∧ 1 ≤ m ≤ 12
       ∧ 1 ≤ y ≤ 9999 ∧ 1 ≤ wd ≤ 7)%Z.
Proof.
  intros s s'.
  assert (Hrun : process_log_data sample.pst sample.one_partition s = (s', Ok ()))
    by (vm_compute; reflexivity).
  assert (Hr : time_columns
                 (Some {| datetime.year := 2018; datetime.month := 11;
                          datetime.day := 1; datetime.hour := 17;
                          datetime.minute := 25; datetime.second := 34;
                          datetime.microsecond := 0 |}) ∈ S3.timetable s')
    by (apply elem_of_compute; vm_compute; reflexivity).
  destruct (timetable_column_ranges sample.pst sample.one_partition s s' _ Hrun Hr)
    as (dt & h & d & w & m & y & wd & E & Hrange).
  eexists _, dt, h, d, w, m, y, wd. split; [exact Hr|]. by split.
Defined.

(** ** Event transform: the fact relation and its dimensions *)

Lemma songplays_table_complete layout time songs artists se ss at_ :
  se ∈ time → ss ∈ songs → at_ ∈ artists →
  sql.eq (Songs.title ss) (Log.song (Time.log se)) = Some true →
  sql.eq (Log.artist (Time.log se)) (Artists.name at_) = Some true →
  ∃ id, songplays_columns id (se, ss, at_)
        ∈ songplays_table layout time songs artists.
Proof.
  intros Hse Hss Hat Hs Ha.
  assert (Hj : (se, ss, at_) ∈ songplays_join time songs artists).
  { unfold songplays_join. apply list_elem_of_bind. exists se. split; [|done].
    unfold join_row. apply (elem_of_bind_pairs (λ ss at_, (se, ss, at_))).
    exists ss, at_. split; [|split; [|done]].
    - apply elem_of_where. by rewrite Hs.
    - apply elem_of_where. by rewrite Ha. }
  apply list_elem_of_lookup_1 in Hj as [i Hi].
  exists (spark.monotonically_increasing_id layout i). unfold songplays_table.
  apply elem_of_lookup_imap. eauto.
Qed.

(** X10: after a completed run every [songsplay] row has a non-null
    [start_time] that is on some [timetable] row, and its month and year,
    the columns [songsplay] is partitioned by, are that row's. *)
Theorem songsplay_time_resolves (tz : tzinfo) (layout : partitioning) (s s' : S3.t)
    (r : SongPlays.row) :
  process_log_data tz layout s = (s', Ok ()) →
  r ∈ S3.songsplay s' →
  is_Some (SongPlays.start_time r)
  ∧ ∃ t, t ∈ S3.timetable s'
         ∧ TimeTable.start_time t = SongPlays.start_time r
         ∧ TimeTable.month t = SongPlays.month r
         ∧ TimeTable.year t = SongPlays.year r.
Proof.
  intros (time & Ht & -> & ->)%process_log_data_Ok.
  intros (se & ss & at_ & id & Hse & _ & _ & _ & _ & ->)
         %elem_of_songplays_table.
  destruct (with_start_time_elem _ _ _ _ Ht Hse) as (_ & dt & _ & Hst).
  simpl. split; [by rewrite Hst|].
  exists (time_columns (Time.start_time se)). split; [|done].
  rewrite (time_table_rows _ _ _ Ht).
  by apply (list_elem_of_fmap_2 (λ r, time_columns (Time.start_time r))).
Qed.

(** X11: after a completed run every [songsplay] row with a non-null
    user_id has a [users] row with that user_id and the row's level. *)
Theorem songsplay_user_resolves (tz : tzinfo) (layout : partitioning) (s s' : S3.t)
    (r : SongPlays.row) (u : string) :
  process_log_data tz layout s = (s', Ok ()) →
  r ∈ S3.songsplay s' →
  SongPlays.user_id r = Some u →
  ∃ x, x ∈ S3.users s' ∧ Users.user_id x = Some u
       ∧ Users.level x = SongPlays.level r.
Proof.
  intros Hrun.
  pose proof (process_log_data_users tz layout s) as Hu.
  rewrite Hrun in Hu. simpl in Hu. rewrite Hu.
  destruct (process_log_data_Ok _ _ _ _ Hrun) as (time & Ht & _ & ->).
  intros (se & ss & at_ & id & Hse & _ & _ & _ & _ & ->)
         %elem_of_songplays_table.
  simpl. intros Hid.
  destruct (with_start_time_elem _ _ _ _ Ht Hse) as (He & _).
  exists (users_columns (Time.log se)). split; [|done].
  apply elem_of_users_table. exists (Time.log se).
  split; [done|]. by rewrite Hid.
Qed.

(** X12: every [songsplay] row of a completed run comes from a play row of
    the log whose song and artist are non-null, a [songs] row with that
    title and an [artists] row with that name: it carries the play's user,
    level, session, location and user agent, the timestamp of its [ts], and
    the identifiers of the two catalog rows.  A null song or artist never
    joins. *)
Theorem songsplay_sound (tz : tzinfo) (layout : partitioning) (s s' : S3.t) (r : SongPlays.row) :
  process_log_data tz layout s = (s', Ok ()) →
  r ∈ S3.songsplay s' →
  ∃ (e : Log.row) (ss : Songs.row) (at_ : Artists.row) (title name : string)
    (dt : datetime.t),
    e ∈ S3.log_data s ∧ Log.page e = Some "NextSong"
    ∧ ss ∈ S3.songs s ∧ at_ ∈ S3.artists s
    ∧ Log.song e = Some title ∧ Songs.title ss = Some title
    ∧ Log.artist e = Some name ∧ Artists.name at_ = Some name
    ∧ get_timestamp tz (Log.ts e) = Ok dt
    ∧ SongPlays.start_time r = Some dt
    ∧ SongPlays.user_id r = Log.userId e
    ∧ SongPlays.level r = Log.level e
    ∧ SongPlays.song_id r = Songs.song_id ss
    ∧ SongPlays.artist_id r = Artists.artist_id at_
    ∧ SongPlays.session_id r = Log.sessionId e
    ∧ SongPlays.location r = Log.location e
    ∧ SongPlays.user_agent r = Log.userAgent e.
Proof.
  intros (time & Ht & _ & ->)%process_log_data_Ok.
  intros (se & ss & at_ & id & Hse & Hss & Hat & Hs & Ha & ->)
         %elem_of_songplays_table.
  destruct (with_start_time_elem _ _ _ _ Ht Hse) as (He & dt & Hdt & Hst).
  apply elem_of_filter_plays in He as [He Hp].
  assert (sql.holds (sql.eq (Songs.title ss) (Log.song (Time.log se))) = true)
    as (title & Ht1 & Ht2)%holds_eq by (by rewrite Hs).
  assert (sql.holds (sql.eq (Log.artist (Time.log se)) (Artists.name at_))
          = true) as (name & Hn1 & Hn2)%holds_eq by (by rewrite Ha).
  exists (Time.log se), ss, at_, title, name, dt. simpl.
  repeat split; done.
Qed.

(** X13: conversely, after a completed run every play row together with a
    [songs] row of its title and an [artists] row of its artist name is on
    some [songsplay] row. *)
Theorem songsplay_complete (tz : tzinfo) (layout : partitioning) (s s' : S3.t) (e : Log.row)
    (ss : Songs.row) (at_ : Artists.row) (title name : string) :
  process_log_data tz layout s = (s', Ok ()) →
  e ∈ S3.log_data s → Log.page e = Some "NextSong" →
  ss ∈ S3.songs s → at_ ∈ S3.artists s →
  Log.song e = Some title → Songs.title ss = Some title →
  Log.artist e = Some name → Artists.name at_ = Some name →
  ∃ r dt, r ∈ S3.songsplay s'
    ∧ get_timestamp tz (Log.ts e) = Ok dt
    ∧ SongPlays.start_time r = Some dt
    ∧ SongPlays.user_id r = Log.userId e
    ∧ SongPlays.song_id r = Songs.song_id ss
    ∧ SongPlays.artist_id r = Artists.artist_id at_
    ∧ SongPlays.session_id r = Log.sessionId e.
Proof.
  intros (time & Ht & _ & ->)%process_log_data_Ok He Hp Hss Hat Hs1 Hs2 Ha1 Ha2.
  assert (Hplay : e ∈ filter_plays (S3.log_data s))
    by (by apply elem_of_filter_plays).
  apply list_elem_of_lookup_1 in Hplay as [i Hi].
  destruct (Forall2_lookup_l _ _ _ _ _ (with_start_time_rows _ _ _ Ht) Hi)
    as (se & Hse & dt & Hdt & ->).
  apply list_elem_of_lookup_2 in Hse.
  destruct (songplays_table_complete layout time (S3.songs s) (S3.artists s)
              _ ss at_ Hse Hss Hat) as [id Hid].
  - simpl. rewrite Hs1, Hs2. simpl. by rewrite bool_decide_eq_true_2.
  - simpl. rewrite Ha1, Ha2. simpl. by rewrite bool_decide_eq_true_2.
  - eexists _, dt. split; [exact Hid|]. done.
Qed.

Section ids.
Local Open Scope Z_scope.

Lemma row_in_partition_le layout i :
  (spark.row_in_partition layout i ≤ i)%nat.
Proof.
  unfold spark.row_in_partition.
  etransitivity; [apply length_filter|]. by rewrite length_seq.
Qed.

Lemma length_filter_seq_lt (P : nat → Prop) `{∀ k, Decision (P k)} (i j : nat) :
  (i < j)%nat → P i →
  (length (filter P (seq 0 i)) < length (filter P (seq 0 j)))%nat.
Proof.
  intros Hij HP.
  replace j with (i + S (j - S i))%nat by lia.
  rewrite seq_app, filter_app, length_app.
  cbn [seq]. rewrite filter_cons_True by done. simpl. lia.
Qed.

(** Within a partition the record numbers grow with the rows. *)
Lemma row_in_partition_lt layout i j :
  (i < j)%nat → layout i = layout j →
  (spark.row_in_partition layout i < spark.row_in_partition layout j)%nat.
Proof.
  intros Hij E. unfold spark.row_in_partition. rewrite E.
  by apply length_filter_seq_lt.
Qed.

Lemma to_long_inj a b :
  0 ≤ a < 2 ^ 64 → 0 ≤ b < 2 ^ 64 →
  spark.to_long a = spark.to_long b → a = b.
Proof.
  unfold spark.to_long. intros Ha Hb.
  Z.to_euclidean_division_equations. lia.
Qed.

(** Fewer than 2^31 partitions of at most 2^33 rows: distinct rows get
    distinct ids. *)
Lemma monotonically_increasing_id_inj layout (n i j : nat) :
  (∀ k, (k < n)%nat → Z.of_nat (layout k) < 2 ^ 31) → Z.of_nat n ≤ 2 ^ 33 →
  (i < n)%nat → (j < n)%nat →
  spark.monotonically_increasing_id layout i
  = spark.monotonically_increasing_id layout j →
  i = j.
Proof.
  intros Hp Hn Hi Hj. unfold spark.monotonically_increasing_id.
  rewrite !Z.shiftl_mul_pow2 by lia.
  pose proof (row_in_partition_le layout i).
  pose proof (row_in_partition_le layout j).
  pose proof (Hp i Hi). pose proof (Hp j Hj).
  intros E%to_long_inj; [|lia..].
  assert (Hl : layout i = layout j) by lia.
  destruct (Nat.lt_trichotomy i j) as [Hlt|[->|Hlt]]; [|done|].
  - pose proof (row_in_partition_lt layout i j Hlt Hl). lia.
  - pose proof (row_in_partition_lt layout j i Hlt (eq_sym Hl)). lia.
Qed.

(** X14: the songplay_id values of a run are pairwise distinct, as long as
    the rows of the result lie in partitions numbered below 2^31 and the
    result has at most 2^33 rows: the partition index fills the upper 31
    bits of the id, the record number within the partition the lower 33. *)
Theorem songplay_ids_distinct (tz : tzinfo) (layout : partitioning)
    (s s' : S3.t) :
  process_log_data tz layout s = (s', Ok ()) →
  (∀ i, (i < length (S3.songsplay s'))%nat → Z.of_nat (layout i) < 2 ^ 31) →
  Z.of_nat (length (S3.songsplay s')) ≤ 2 ^ 33 →
  NoDup (SongPlays.songplay_id <$> S3.songsplay s').
Proof.
  intros (time & _ & _ & ->)%process_log_data_Ok.
  unfold songplays_table. rewrite length_imap. intros Hp Hn.
  rewrite fmap_imap.
  rewrite (imap_ext _ (λ j _, spark.monotonically_increasing_id layout (0 + j))).
  2: { intros i [[se ss] at_] _. reflexivity. }
  rewrite (imap_seq _ (spark.monotonically_increasing_id layout)).
  apply NoDup_fmap_2_strong; [|apply NoDup_seq].
  intros i j [_ Hi]%elem_of_seq [_ Hj]%elem_of_seq.
  by apply (monotonically_increasing_id_inj layout
              (length (songplays_join time (S3.songs s) (S3.artists s)))).
Qed.
End ids.

Lemma sample_run_Ok :
  let s := process_song_data
             (sample.bucket [sample.song "S1" "Song A" "P1" "Band X";
                             sample.song "S2" "Song A" "P2" "Band Y"]
                            [sample.play "10" "Song A" "Band X";
                             sample.play "11" "Song C" "Band Y"]) in
  process_log_data sample.utc sample.one_partition s = ((process_log_data sample.utc sample.one_partition s).1, Ok ()).
Proof. vm_compute. reflexivity. Defined.

Lemma songsplay_time_resolves_witness :
  let s := process_song_data
             (sample.bucket [sample.song "S1" "Song A" "P1" "Band X";
                             sample.song "S2" "Song A" "P2" "Band Y"]
                            [sample.play "10" "Song A" "Band X";
                             sample.play "11" "Song C" "Band Y"]) in
  let s' := (process_log_data sample.utc sample.one_partition s).1 in
  ∃ r, r ∈ S3.songsplay s'
    ∧ is_Some (SongPlays.start_time r)
    ∧ ∃ t, t ∈ S3.timetable s'
           ∧ TimeTable.start_time t = SongPlays.start_time r
           ∧ TimeTable.month t = SongPlays.month r
           ∧ TimeTable.year t = SongPlays.year r.
Proof.
  intros s s'.
  destruct (S3.songsplay s') as [|r l] eqn:E; [by vm_compute in E|].
  exists r. split; [left|].
  apply (songsplay_time_resolves sample.utc sample.one_partition s s' r sample_run_Ok).
  fold s'. rewrite E. left.
Defined.

Lemma songsplay_user_resolves_witness :
  let s := process_song_data
             (sample.bucket [sample.song "S1" "Song A" "P1" "Band X";
                             sample.song "S2" "Song A" "P2" "Band Y"]
                            [sample.play "10" "Song A" "Band X";
                             sample.play "11" "Song C" "Band Y"]) in
  let s' := (process_log_data sample.utc sample.one_partition s).1 in
  ∃ r, r ∈ S3.songsplay s' ∧ SongPlays.user_id r = Some "10"
    ∧ ∃ x, x ∈ S3.users s' ∧ Users.user_id x = Some "10"
           ∧ Users.level x = SongPlays.level r.
Proof.
  intros s s'.
  destruct (S3.songsplay s') as [|r l] eqn:E; [by vm_compute in E|].
  assert (Hid : SongPlays.user_id r = Some "10")
    by (vm_compute in E; by injection E as <- _).
  exists r. split; [left|]. split; [exact Hid|].
  apply (songsplay_user_resolves sample.utc sample.one_partition s s' r "10" sample_run_Ok);
    [|exact Hid].
  fold s'. rewrite E. left.
Defined.

Lemma songsplay_sound_witness :
  let s := process_song_data
             (sample.bucket [sample.song "S1" "Song A" "P1" "Band X";
                             sample.song "S2" "Song A" "P2" "Band Y"]
                            [sample.play "10" "Song A" "Band X";
                             sample.play "11" "Song C" "Band Y"]) in
  let s' := (process_log_data sample.utc sample.one_partition s).1 in
  ∃ r, r ∈ S3.songsplay s'
    ∧ ∃ (e : Log.row) (ss : Songs.row) (at_ : Artists.row)
        (title name : string) (dt : datetime.t),
        e ∈ S3.log_data s ∧ Log.page e = Some "NextSong"
        ∧ ss ∈ S3.songs s ∧ at_ ∈ S3.artists s
        ∧ Log.song e = Some title ∧ Songs.title ss = Some title
        ∧ Log.artist e = Some name ∧ Artists.name at_ = Some name
        ∧ get_timestamp sample.utc (Log.ts e) = Ok dt
        ∧ SongPlays.start_time r = Some dt
        ∧ SongPlays.user_id r = Log.userId e
        ∧ SongPlays.level r = Log.level e
        ∧ SongPlays.song_id r = Songs.song_id ss
        ∧ SongPlays.artist_id r = Artists.artist_id at_
        ∧ SongPlays.session_id r = Log.sessionId e
        ∧ SongPlays.location r = Log.location e
        ∧ SongPlays.user_agent r = Log.userAgent e.
Proof.
  intros s s'.
  destruct (S3.songsplay s') as [|r l] eqn:E; [by vm_compute in E|].
  exists r. split; [left|].
  apply (songsplay_sound sample.utc sample.one_partition s s' r sample_run_Ok).
  fold s'. rewrite E. left.
Defined.

Lemma songsplay_complete_witness :
  let s := process_song_data
             (sample.bucket [sample.song "S1" "Song A" "P1" "Band X";
                             sample.song "S2" "Song A" "P2" "Band Y"]
                            [sample.play "10" "Song A" "Band X";
                             sample.play "11" "Song C" "Band Y"]) in
  let s' := (process_log_data sample.utc sample.one_partition s).1 in
  let e := sample.play "10" "Song A" "Band X" in
  ∃ r dt, r ∈ S3.songsplay s'
    ∧ get_timestamp sample.utc (Log.ts e) = Ok dt
    ∧ SongPlays.start_time r = Some dt
    ∧ SongPlays.user_id r = Log.userId e
    ∧ SongPlays.song_id r = Some "S2"
    ∧ SongPlays.artist_id r = Some "P1"
    ∧ SongPlays.session_id r = Log.sessionId e.
Proof.
  intros s s' e.
  apply (songsplay_complete sample.utc sample.one_partition s s' e
           (songs_columns (sample.song "S2" "Song A" "P2" "Band Y"))
           (artists_columns (sample.song "S1" "Song A" "P1" "Band X"))
           "Song A" "Band X" sample_run_Ok);
    try reflexivity; apply elem_of_compute; vm_compute; reflexivity.
Defined.

Lemma songplay_ids_distinct_witness :
  let s := process_song_data
             (sample.bucket [sample.song "S1" "Song A" "P1" "Band X";
                             sample.song "S2" "Song A" "P2" "Band Y"]
                            [sample.play "10" "Song A" "Band X";
                             sample.play "11" "Song C" "Band Y"]) in
  let s' := (process_log_data sample.utc sample.row_per_partition s).1 in
  SongPlays.songplay_id <$> S3.songsplay s' = [0; 8589934592]%Z
  ∧ NoDup (SongPlays.songplay_id <$> S3.songsplay s').
Proof.
  intros s s'. split; [vm_compute; reflexivity|].
  apply (songplay_ids_distinct sample.utc sample.row_per_partition s s').
  - vm_compute. reflexivity.
  - replace (length (S3.songsplay s')) with 2%nat by (vm_compute; reflexivity).
    unfold sample.row_per_partition. lia.
  - vm_compute. discriminate.
Defined.

(** ** Event transform: when it raises, and what it has written by then *)

(** X15: the UDF raises in a run exactly when some row of the log with
    page 'NextSong' has a [ts] it cannot convert; rows of other pages are
    never converted, so their [ts] cannot make it raise. *)
Theorem udf_raises_iff (tz : tzinfo) (layout : partitioning) (s : S3.t) :
  (∃ err, (process_log_data tz layout s).2 = Raise err)
  ↔ ∃ e, e ∈ S3.log_data s ∧ Log.page e = Some "NextSong"
         ∧ ∃ err, get_timestamp tz (Log.ts e) = Raise err.
Proof.
  rewrite process_log_data_status. split.
  - intros [err H].
    destruct (with_start_time tz (filter_plays (S3.log_data s)))
      as [time|err'] eqn:Ht; [done|].
    apply traverse_Raise in Ht as (e & [He Hp]%elem_of_filter_plays & Hr).
    exists e. split; [done|]. split; [done|].
    destruct (get_timestamp tz (Log.ts e)) as [dt|err'']; [done|]. eauto.
  - intros (e & He & Hp & err & Hr).
    destruct (with_start_time tz (filter_plays (S3.log_data s)))
      as [time|err'] eqn:Ht; [|by exists err'].
    assert (Hplay : e ∈ filter_plays (S3.log_data s))
      by (by apply elem_of_filter_plays).
    apply list_elem_of_lookup_1 in Hplay as [i Hi].
    destruct (Forall2_lookup_l _ _ _ _ _ (with_start_time_rows _ _ _ Ht) Hi)
      as (r & _ & dt & Hdt & _).
    congruence.
Qed.

Lemma udf_raises_iff_witness :
  let s := sample.bucket [sample.song "S1" "Song A" "P1" "Band X"]
             [sample.event (Some "Home") (Some "10") None "Song A" "Band X";
              sample.play "10" "Song A" "Band X"] in
  let s' := S3.with_log_data
              (S3.log_data s
               ++ [sample.event (Some "NextSong") (Some "11") None
                     "Song A" "Band X"]) s in
  (process_log_data sample.utc sample.one_partition s).2 = Ok ()
  ∧ (process_log_data sample.utc sample.one_partition s').2 = Raise TypeError
  ∧ ∃ e, e ∈ S3.log_data s' ∧ Log.page e = Some "NextSong"
         ∧ ∃ err, get_timestamp sample.utc (Log.ts e) = Raise err.
Proof.
  intros s s'. split; [vm_compute; reflexivity|].
  split; [vm_compute; reflexivity|].
  apply (udf_raises_iff sample.utc sample.one_partition s').
  exists TypeError. vm_compute. reflexivity.
Defined.

(** X16: when the UDF raises, [users] has been written all the same, from
    the play rows, and [songsplay] is left as it was; the exception is the
    one some play row's [ts] raises. *)
Theorem raise_partial_effects (tz : tzinfo) (layout : partitioning) (s s' : S3.t) (err : exn) :
  process_log_data tz layout s = (s', Raise err) →
  S3.users s' = users_table (filter_plays (S3.log_data s))
  ∧ S3.songsplay s' = S3.songsplay s
  ∧ ∃ e, e ∈ S3.log_data s ∧ Log.page e = Some "NextSong"
         ∧ get_timestamp tz (Log.ts e) = Raise err.
Proof.
  unfold process_log_data.
  destruct (with_start_time tz (filter_plays (S3.log_data s)))
    as [time|err'] eqn:Ht; [done|].
  intros [= <- <-]. split; [done|]. split; [done|].
  apply traverse_Raise in Ht as (e & [He Hp]%elem_of_filter_plays & Hr).
  exists e. split; [done|]. split; [done|].
  destruct (get_timestamp tz (Log.ts e)); simpl in Hr; congruence.
Qed.

Lemma raise_partial_effects_witness :
  let s := sample.bucket [sample.song "S1" "Song A" "P1" "Band X"]
             [sample.play "10" "Song A" "Band X";
              sample.event (Some "NextSong") (Some "11") None
                "Song A" "Band X"] in
  let s' := (process_log_data sample.utc sample.one_partition s).1 in
  length (S3.users s') = 2
  ∧ S3.users s' = users_table (filter_plays (S3.log_data s))
  ∧ S3.songsplay s' = S3.songsplay s
  ∧ ∃ e, e ∈ S3.log_data s ∧ Log.page e = Some "NextSong"
         ∧ get_timestamp sample.utc (Log.ts e) = Raise TypeError.
Proof.
  intros s s'. split; [vm_compute; reflexivity|].
  apply (raise_partial_effects sample.utc sample.one_partition s s' TypeError).
  vm_compute. reflexivity.
Defined.

(** ** The time zone touches the time columns only *)

Lemma strip_singletons se se' (ss : Songs.row) (l2 : list Artists.row) :
  Time.log se = Time.log se' →
  strip_start_time <$> (at_ ← l2; [(se, ss, at_)])
  = strip_start_time <$> (at_ ← l2; [(se', ss, at_)]).
Proof.
  intros E. induction l2 as [|a l2 IH]; [done|].
  rewrite !bind_cons, !fmap_app, IH. f_equal.
  unfold strip_start_time. simpl. by rewrite E.
Qed.

Lemma strip_pairs se se' (l1 : list Songs.row) (l2 : list Artists.row) :
  Time.log se = Time.log se' →
  strip_start_time <$> (ss ← l1; at_ ← l2; [(se, ss, at_)])
  = strip_start_time <$> (ss ← l1; at_ ← l2; [(se', ss, at_)]).
Proof.
  intros E. induction l1 as [|ss l1 IH]; [done|].
  rewrite !bind_cons, !fmap_app, IH. f_equal.
  by apply strip_singletons.
Qed.

Lemma strip_join_row se se' songs artists :
  Time.log se = Time.log se' →
  strip_start_time <$> join_row se songs artists
  = strip_start_time <$> join_row se' songs artists.
Proof.
  intros E. unfold join_row. rewrite E. by apply strip_pairs.
Qed.

Lemma strip_songplays_join t1 t2 songs artists :
  Time.log <$> t1 = Time.log <$> t2 →
  strip_start_time <$> songplays_join t1 songs artists
  = strip_start_time <$> songplays_join t2 songs artists.
Proof.
  revert t2. induction t1 as [|se t1 IH]; intros [|se' t2] E; try done.
  rewrite !fmap_cons in E. injection E as E1 E2.
  rewrite !songplays_join_cons, !fmap_app.
  by rewrite (strip_join_row se se'), (IH t2).
Qed.

Lemma event_columns_songplays_table layout time songs artists :
  songplays_event_columns <$> songplays_table layout time songs artists
  = (λ j, (Log.userId j.1.1, Log.level j.1.1,
           Songs.song_id j.1.2, Artists.artist_id j.2,
           Log.sessionId j.1.1, Log.location j.1.1,
           Log.userAgent j.1.1))
      <$> (strip_start_time <$> songplays_join time songs artists).
Proof.
  unfold songplays_table. rewrite fmap_imap, <- list_fmap_compose.
  rewrite <- imap_const. apply imap_ext. by intros i [[se ss] at_] _.
Qed.

(** X17: two completed runs on one bucket under different time zones write
    the same [users], [songsplay] rows that agree on every column taken
    from the event and the catalog (user_id, level, song_id, artist_id,
    session_id, location, user_agent), and as many [timetable] rows. *)
Theorem timezone_touches_time_columns_only (tz1 tz2 : tzinfo)
    (layout1 layout2 : partitioning) (s s1 s2 : S3.t) :
  process_log_data tz1 layout1 s = (s1, Ok ()) →
  process_log_data tz2 layout2 s = (s2, Ok ()) →
  S3.users s1 = S3.users s2
  ∧ songplays_event_columns <$> S3.songsplay s1
    = songplays_event_columns <$> S3.songsplay s2
  ∧ length (S3.timetable s1) = length (S3.timetable s2).
Proof.
  intros H1 H2.
  pose proof (process_log_data_users tz1 layout1 s) as Hu1.
  pose proof (process_log_data_users tz2 layout2 s) as Hu2.
  rewrite H1 in Hu1. rewrite H2 in Hu2. simpl in Hu1, Hu2.
  destruct (process_log_data_Ok _ _ _ _ H1) as (t1 & Ht1 & -> & ->).
  destruct (process_log_data_Ok _ _ _ _ H2) as (t2 & Ht2 & -> & ->).
  assert (E : Time.log <$> t1 = Time.log <$> t2)
    by (by rewrite (with_start_time_log _ _ _ Ht1),
                   (with_start_time_log _ _ _ Ht2)).
  split; [by rewrite Hu1, Hu2|]. split.
  - rewrite !event_columns_songplays_table.
    by rewrite (strip_songplays_join t1 t2).
  - rewrite (time_table_rows _ _ _ Ht1), (time_table_rows _ _ _ Ht2).
    rewrite !length_fmap.
    by rewrite <- (length_fmap Time.log t1), E, length_fmap.
Qed.

Lemma timezone_touches_time_columns_only_witness :
  let s := process_song_data
             (sample.bucket [sample.song "S1" "Song A" "P1" "Band X"]
                            [sample.play "10" "Song A" "Band X"]) in
  let s1 := (process_log_data sample.utc sample.one_partition s).1 in
  let s2 := (process_log_data sample.pst sample.row_per_partition s).1 in
  S3.songsplay s1 ≠ S3.songsplay s2
  ∧ S3.users s1 = S3.users s2
  ∧ songplays_event_columns <$> S3.songsplay s1
    = songplays_event_columns <$> S3.songsplay s2
  ∧ length (S3.timetable s1) = length (S3.timetable s2).
Proof.
  intros s s1 s2. split; [vm_compute; discriminate|].
  apply (timezone_touches_time_columns_only sample.utc sample.pst
           sample.one_partition sample.row_per_partition s s1 s2);
    vm_compute; reflexivity.
Defined.

(** ** The driver *)

(** X19: after a completed [main] every [songsplay] row has a non-null
    song_id and a non-null artist_id: the catalog transform that ran first
    left no null identifier to join with. *)
Theorem main_fact_keys_non_null (tz : tzinfo) (layout : partitioning) (s s' : S3.t)
    (r : SongPlays.row) :
  main tz layout s = (s', Ok ()) →
  r ∈ S3.songsplay s' →
  is_Some (SongPlays.song_id r) ∧ is_Some (SongPlays.artist_id r).
Proof.
  unfold main. intros (time & _ & _ & ->)%process_log_data_Ok.
  rewrite process_song_data_songs, process_song_data_artists.
  intros (se & ss & at_ & id & _ & Hss & Hat & _ & _ & ->)
         %elem_of_songplays_table.
  apply elem_of_songs_table in Hss as (x & _ & Hx & ->).
  apply elem_of_artists_table in Hat as (y & _ & Hy & ->).
  by split.
Qed.

Lemma main_fact_keys_non_null_witness :
  let s := sample.bucket [sample.song "S1" "Song A" "P1" "Band X"]
                         [sample.play "10" "Song A" "Band X"] in
  let s' := (main sample.utc sample.one_partition s).1 in
  ∃ r, r ∈ S3.songsplay s'
       ∧ is_Some (SongPlays.song_id r) ∧ is_Some (SongPlays.artist_id r).
Proof.
  intros s s'.
  destruct (S3.songsplay s') as [|r l] eqn:E; [by vm_compute in E|].
  exists r. split; [left|].
  apply (main_fact_keys_non_null sample.utc sample.one_partition s s' r).
  - vm_compute. reflexivity.
  - fold s'. rewrite E. left.
Defined.
